(** * The batch-analysis engine of cookie-fun-hackathon, embedded in Rocq

    The development follows the Python sources

    - [analysis/pipelines/_base.py]                      ([Pipeline], [__ror__]),
    - [analysis/pipelines/cookie_fun_batched_analysis.py] (the batching stage),
    - [analysis/pipelines/recursion_pipeline.py]          (the recursion stage),
    - [app/storage/cookie_fun.py]                         (records, fingerprint, query).

    Async generators are finite resumption trees ([Gen]); async functions
    are computations in a state-and-exception monad ([M]) over an explicit
    [World] (database table, heap of metadata dictionaries, standard output,
    log of collaborator calls, environment of the external services).

    What the embedding leaves out: the tasks of a wave are run one after the
    other, in submission order, instead of interleaved at their awaits; the
    external collaborators and the clock act on the environment only; the
    ORM relationships of the records ([ingestion_run], [agents]) and the
    tracing decorators are not modelled; filters, mappers and stop
    predicates are total functions. *)

From stdpp Require Import base gmap list strings sorting pretty.
From Stdlib Require Import ZArith Lia Ascii FunctionalExtensionality.

Open Scope Z_scope.

(** ** Python primitives *)

(** [str(i)] on an [int]: decimal digits, a leading minus sign for negative
    numbers. *)
Definition str (i : Z) : string := pretty i.

(** [sorted(l)] on a list of [int]. *)
Definition sorted (l : list Z) : list Z := merge_sort Z.le l.

(** [sep.join(l)]. *)
Definition join (sep : string) (l : list string) : string := String.concat sep l.

(** [range(0, stop, step)] for a positive [step], as the list of its indices. *)
Fixpoint range_from (fuel : nat) (start step : nat) : list nat :=
  match fuel with
  | O => []
  | S fuel' => start :: range_from fuel' (start + step)%nat step
  end.

Definition range0 (stop step : nat) : list nat :=
  range_from (Nat.div (stop + step - 1) step) 0 step.

(** [l[i : i + n]]. *)
Definition slice {A} (l : list A) (i n : nat) : list A := take n (drop i l).

(** Values held by the metadata dictionaries. *)
Inductive pyval : Type :=
| PyInt (z : Z)
| PyBool (b : bool)
| PyStr (s : string).

Abbreviation dict := (gmap string pyval).

(** [{**a, **b}]: the entries of [b] win. *)
Definition dict_merge (a b : dict) : dict := b ∪ a.

(** Exceptions.  Both the empty-batch error and the depth guard are
    [ValueError]s in the source; failures of the external collaborators are
    kept apart by their own constructor; [asyncio.TaskGroup] wraps the
    failures of its tasks in an [ExceptionGroup]. *)
#[local] Unset Elimination Schemes.
Inductive exn : Type :=
| ValueError (msg : string)
| CollaboratorFailure (code : nat)
| ExceptionGroup (msg : string) (excs : list exn).
#[local] Set Elimination Schemes.

(** ** Storage: [app/storage/cookie_fun.py] *)

Module HistoricAgentRecord.

Record t : Type := mk {
  id : Z;
  ingestion_run_id : Z;
  agent_name : string;
  created_at : Z;
  data : dict;
}.

End HistoricAgentRecord.

Module BatchAnalysisRecord.

(** [id] and [created_at] are filled in by the database when the row is
    written; they are [None] on an object that was never flushed. *)
Record t : Type := mk {
  id : option Z;
  ingestion_run_id : Z;
  input_agent_ids : string;
  created_at : option Z;
  analysis_type : string;
  analysis : string;
  top_agent_ids : list Z;
  meta : dict;
}.

(** [BatchAnalysisRecord.serialize_agent_ids]. *)
Definition serialize_agent_ids (agent_ids : list Z) : string :=
  join "," (str <$> sorted agent_ids).

(** The [where] clause of [BatchAnalysisRecord.query]. *)
Definition matches (analysis_type0 : string) (run_id : Z) (input_agent_ids0 : string)
    (r : t) : bool :=
  bool_decide (ingestion_run_id r = run_id)
  && bool_decide (input_agent_ids r = input_agent_ids0)
  && bool_decide (analysis_type r = analysis_type0).

(** Timestamps compare as in SQLite: [NULL] sorts below every value. *)
Definition newer (a b : option Z) : bool :=
  match a, b with
  | Some x, Some y => bool_decide (y < x)
  | Some _, None => true
  | None, _ => false
  end.

(** [order_by(created_at.desc())] followed by [first()]: the row with the
    greatest [created_at]; among rows of equal timestamp the earliest row
    of the table is taken. *)
Fixpoint latest (best : t) (rows : list t) : t :=
  match rows with
  | [] => best
  | r :: rows' =>
      latest (if newer (created_at r) (created_at best) then r else best) rows'
  end.

Definition first_desc (rows : list t) : option t :=
  match rows with
  | [] => None
  | r :: rows' => Some (latest r rows')
  end.

(** [BatchAnalysisRecord.query] on the rows of the table. *)
Definition query (session : list t) (analysis_type0 : string)
    (run_id : Z) (input_agent_ids0 : string) : option t :=
  first_desc (List.filter (matches analysis_type0 run_id input_agent_ids0) session).

(** The integer primary key given to a new row. *)
Definition next_id (rows : list t) : Z :=
  1 + foldr (λ r acc, Z.max (default 0 (id r)) acc) 0 rows.

End BatchAnalysisRecord.

(** ** The world an analysis run acts on *)

(** What the run asks of its external collaborators, in call order. *)
Inductive call : Type :=
| CallAgent (payload : list dict)
| CallIdentifyTopAgents (batch : list HistoricAgentRecord.t) (text : string).

(** The asyncio runtime and the external services: [Ext] is the state of
    everything outside the process (the language-model services), and
    [as_completed] is the order in which the event loop hands back the
    results of a finished wave, some rearrangement of the submission order.
    A runtime fixes one rearrangement; the event loop may choose another in
    another run, so the order of the yields is stated for one run at a
    time, never compared between two runs. *)
Class Runtime : Type := {
  Ext : Type;
  as_completed : ∀ {A : Type}, list A → list A;
  as_completed_perm : ∀ (A : Type) (l : list A), as_completed l ≡ₚ l;
}.

(** The environment: the wall clock behind [func.now()] and the state of
    the external services.  A collaborator call may change both. *)
Record Env `{Runtime} : Type := mkEnv {
  now : Z;
  oracle : Ext;
}.
Arguments mkEnv {_} now oracle.

Record World `{Runtime} : Type := mkWorld {
  db : list BatchAnalysisRecord.t;   (* the rows of [batch_analysis_records] *)
  heap : list dict;                  (* the dict objects, addressed by index *)
  stdout : list string;              (* the lines written by [print] *)
  calls : list call;                 (* the collaborator calls made so far *)
  env : Env;
}.
Arguments mkWorld {_} db heap stdout calls env.

(** A reference to a dict object of the heap. *)
Abbreviation loc := nat.

(** ** Async functions: state and exceptions *)

Inductive Result (A : Type) : Type :=
| Ok (a : A)
| Raise (e : exn).
Arguments Ok {A} a.
Arguments Raise {A} e.

(** What an external collaborator answers: a value, or a failure. *)
Inductive Outcome (A : Type) : Type :=
| Done (a : A)
| Failed (code : nat).
Arguments Done {A} a.
Arguments Failed {A} code.

Section Monad.
Context `{Runtime}.

Definition M (A : Type) : Type := World → Result A * World.

Definition ret {A} (a : A) : M A := λ w, (Ok a, w).

Definition raise {A} (e : exn) : M A := λ w, (Raise e, w).

Definition bind {A B} (m : M A) (k : A → M B) : M B :=
  λ w, match m w with
       | (Ok a, w') => k a w'
       | (Raise e, w') => (Raise e, w')
       end.

End Monad.

Declare Scope py_scope.
Delimit Scope py_scope with py.
Notation "x <- m ;; k" := (bind m (λ x, k))
  (at level 100, m at next level, right associativity,
   format "'[v' x  <-  m  ;;  '/' k ']'") : py_scope.
Notation "m ;; k" := (bind m (λ _, k))
  (at level 100, right associativity,
   format "'[v' m  ;;  '/' k ']'") : py_scope.
Open Scope py_scope.

Section Primitives.
Context `{Runtime}.

(** [print(line)]. *)
Definition print (line : string) : M unit :=
  λ w, (Ok tt, mkWorld (db w) (heap w) (stdout w ++ [line]) (calls w) (env w)).

(** Reading the dict object behind a reference. *)
Definition get_dict (l : loc) : M dict :=
  λ w, (Ok (default ∅ (heap w !! l)), w).

(** A dict display [{...}] creates a new object. *)
Definition new_dict (d : dict) : M loc :=
  λ w, (Ok (length (heap w)),
        mkWorld (db w) (heap w ++ [d]) (stdout w) (calls w) (env w)).

(** A call [c] of an external collaborator [f]; its failure is raised as
    a [CollaboratorFailure]. *)
Definition external {A} (c : call) (f : Env → Outcome A * Env) : M A :=
  λ w, let '(r, env') := f (env w) in
       (match r with
        | Done a => Ok a
        | Failed code => Raise (CollaboratorFailure code)
        end,
        mkWorld (db w) (heap w) (stdout w) (calls w ++ [c]) env').

(** [BatchAnalysisRecord.query] within a session of [open_cookiefun_db()]. *)
Definition db_query (analysis_type : string) (run_id : Z) (input_agent_ids : string)
    : M (option BatchAnalysisRecord.t) :=
  λ w, (Ok (BatchAnalysisRecord.query (db w) analysis_type run_id input_agent_ids), w).

(** [session.add(record); session.commit(); session.refresh(record)]: the
    row receives its primary key and its [created_at] default. *)
Definition db_insert (record : BatchAnalysisRecord.t) : M BatchAnalysisRecord.t :=
  λ w,
    let row := BatchAnalysisRecord.mk
                 (Some (BatchAnalysisRecord.next_id (db w)))
                 (BatchAnalysisRecord.ingestion_run_id record)
                 (BatchAnalysisRecord.input_agent_ids record)
                 (Some (now (env w)))
                 (BatchAnalysisRecord.analysis_type record)
                 (BatchAnalysisRecord.analysis record)
                 (BatchAnalysisRecord.top_agent_ids record)
                 (BatchAnalysisRecord.meta record) in
    (Ok row, mkWorld (db w ++ [row]) (heap w) (stdout w) (calls w) (env w)).

End Primitives.

(** ** Async generators *)

(** A generator is what it does when it is asked for its next item: it
    ends ([Stop]), raises ([Throw]), hands out an item and waits to be
    resumed ([Yield]), or acts on the world and goes on ([Await]). *)
#[local] Unset Elimination Schemes.
Inductive Gen `{Runtime} (O : Type) : Type :=
| Stop
| Throw (e : exn)
| Yield (o : O) (rest : Gen O)
| Await (step : World → Gen O * World).
#[local] Set Elimination Schemes.
Arguments Stop {_ O}.
Arguments Throw {_ O} e.
Arguments Yield {_ O} o rest.
Arguments Await {_ O} step.

Section Generators.
Context `{Runtime}.

(** [for item in l: yield item]. *)
Fixpoint of_list {A} (l : list A) : Gen A :=
  match l with
  | [] => Stop
  | x :: l' => Yield x (of_list l')
  end.

(** [for x in l: yield x], then [rest]. *)
Definition yield_all {A} (l : list A) (rest : Gen A) : Gen A := foldr Yield rest l.

(** The code of a generator running an async computation [m] and going
    on as [k] with its result. *)
Definition lift {A O} (m : M A) (k : A → Gen O) : Gen O :=
  Await (λ w, match m w with
              | (Ok a, w') => (k a, w')
              | (Raise e, w') => (Throw e, w')
              end).

(** [async for item in g: results.append(item); yield f(item)], followed
    by [after results]; [results] starts out as [acc]. *)
Fixpoint async_for {A B} (g : Gen A) (f : A → B) (acc : list A)
    (after : list A → Gen B) : Gen B :=
  match g with
  | Stop => after acc
  | Throw e => Throw e
  | Yield item rest => Yield (f item) (async_for rest f (acc ++ [item]) after)
  | Await step =>
      Await (λ w, let '(g', w') := step w in (async_for g' f acc after, w'))
  end.

(** [[item async for item in g]]. *)
Fixpoint materialize {A} (g : Gen A) (acc : list A) : M (list A) :=
  match g with
  | Stop => ret acc
  | Throw e => raise e
  | Yield item rest => materialize rest (acc ++ [item])
  | Await step => λ w, let '(g', w') := step w in materialize g' acc w'
  end.

(** Running a generator to its end: the items it yields, the exception
    it ends with if any, and the world it leaves. *)
Fixpoint drive {O} (g : Gen O) (w : World) : list O * option exn * World :=
  match g with
  | Stop => ([], None, w)
  | Throw e => ([], Some e, w)
  | Yield o rest => let '(os, r, w') := drive rest w in (o :: os, r, w')
  | Await step => let '(g', w') := step w in drive g' w'
  end.

End Generators.

(** ** [analysis/pipelines/_base.py] *)

Module Pipeline.
Section Pipeline.
Context `{Runtime}.

(** A pipeline object: its class name and its [run] method.  The
    [metadata] argument is a reference to the caller's dict. *)
Record t (I O : Type) : Type := mk {
  cls_name : string;
  run : Gen I → loc → Gen O;
}.
Arguments cls_name {I O}.
Arguments run {I O}.

(** [ComposedPipeline.run]. *)
Definition ComposedPipeline_run {T I O} (first_pipeline : t T I) (second_pipeline : t I O)
    (input : Gen T) (metadata : loc) : Gen O :=
  let stream := run first_pipeline input metadata in
  async_for (run second_pipeline stream metadata) (λ item, item) [] (λ _, Stop).

(** [Pipeline.__ror__]: [first_pipeline | self]. *)
Definition __ror__ {T I O} (self : t I O) (first_pipeline : t T I) : t T O :=
  mk T O "ComposedPipeline" (ComposedPipeline_run first_pipeline self).

End Pipeline.
Arguments cls_name {_ I O}.
Arguments run {_ I O}.
End Pipeline.

(** [len(l)]. *)
Definition len {A} (l : list A) : Z := Z.of_nat (length l).

(** ** [analysis/pipelines/cookie_fun_batched_analysis.py] *)

Module CookieFunBatchedAnalysisPipeline.
Section CookieFunBatchedAnalysisPipeline.
Context `{Runtime}.

(** The object built by [__init__].  The two callbacks are external
    services: they may fail and they act on the environment only. *)
Record t : Type := mk {
  analysis_type : string;
  agent : list dict → Env → Outcome string * Env;
  identify_top_agents : list HistoricAgentRecord.t → string → Env → Outcome (list Z) * Env;
  filter_agents : HistoricAgentRecord.t → bool;
  ignore_cached : bool;
  batch_size : Z;
  max_batches : Z;
  concurrency : Z;
  extra_metadata : dict;
}.

(** The dict display at the head of [run]. *)
Definition run_metadata (self : t) (metadata : dict) : dict :=
  dict_merge
    (dict_merge
       {[ "batch_size" := PyInt (batch_size self);
          "max_batches" := PyInt (max_batches self);
          "concurrency" := PyInt (concurrency self);
          "ignore_cached" := PyBool (ignore_cached self) ]}
       (extra_metadata self))
    metadata.

(** The [async for record in input] loop of [run], from the state
    [(current_batch, batches)]; it returns that state as the loop leaves
    it, by exhaustion of [input] or by [break]. *)
Fixpoint form_batches (self : t) (input : Gen HistoricAgentRecord.t)
    (current_batch : list HistoricAgentRecord.t)
    (batches : list (list HistoricAgentRecord.t))
    : M (list HistoricAgentRecord.t * list (list HistoricAgentRecord.t)) :=
  match input with
  | Stop => ret (current_batch, batches)
  | Throw e => raise e
  | Yield record rest =>
      if negb (filter_agents self record) then
        form_batches self rest current_batch batches
      else
        let current_batch := current_batch ++ [record] in
        let '(current_batch, batches) :=
          if len current_batch >=? batch_size self
          then ([], batches ++ [current_batch])
          else (current_batch, batches) in
        if len batches >=? max_batches self
        then ret (current_batch, batches)
        else form_batches self rest current_batch batches
  | Await step =>
      λ w, let '(input', w') := step w in
           form_batches self input' current_batch batches w'
  end.

(** [if current_batch: batches.append(current_batch)]. *)
Definition seal_trailing (current_batch : list HistoricAgentRecord.t)
    (batches : list (list HistoricAgentRecord.t)) : list (list HistoricAgentRecord.t) :=
  match current_batch with
  | [] => batches
  | _ :: _ => batches ++ [current_batch]
  end.

(** [_run_agent]: the work unit of one batch.  [eagerly_load_all] only
    loads relationships, which are not modelled. *)
Definition _run_agent (self : t) (batch : list HistoricAgentRecord.t) (metadata : loc)
    : M BatchAnalysisRecord.t :=
  match batch with
  | [] => raise (ValueError "Batch is empty")
  | first :: _ =>
      let run_id := HistoricAgentRecord.ingestion_run_id first in
      let input_agent_ids :=
        BatchAnalysisRecord.serialize_agent_ids (HistoricAgentRecord.id <$> batch) in
      record <- db_query (analysis_type self) run_id input_agent_ids ;;
      match record, ignore_cached self with
      | Some record, false => ret record
      | _, _ =>
          analysis <- external (CallAgent (HistoricAgentRecord.data <$> batch))
                        (agent self (HistoricAgentRecord.data <$> batch)) ;;
          top_agent_ids <- external (CallIdentifyTopAgents batch analysis)
                             (identify_top_agents self batch analysis) ;;
          meta <- get_dict metadata ;;
          db_insert (BatchAnalysisRecord.mk None run_id input_agent_ids None
                       (analysis_type self) analysis top_agent_ids meta)
      end
  end.

(** The tasks of an [asyncio.TaskGroup], run one after the other in the
    order of their creation; the first failure abandons the tasks that
    are left.  The tasks of the source take turns at every [await]: what
    they write differs from what is written here when two batches of one
    wave have the same key, which then both miss the cache and both insert
    a row.  No statement below compares the rows of such batches. *)
Fixpoint gather {A} (tasks : list (M A)) : M (list A) :=
  match tasks with
  | [] => ret []
  | task :: tasks' =>
      r <- task ;;
      rs <- gather tasks' ;;
      ret (r :: rs)
  end.

(** Leaving the [async with] block: the results of the tasks, or the
    [ExceptionGroup] of the failure. *)
Definition task_group {A} (tasks : list (M A)) : M (list A) :=
  λ w, match gather tasks w with
       | (Ok rs, w') => (Ok rs, w')
       | (Raise e, w') =>
           (Raise (ExceptionGroup "unhandled errors in a TaskGroup" [e]), w')
       end.

(** The line printed at the head of a wave. *)
Definition wave_banner (batches : list (list HistoricAgentRecord.t)) (index : nat) : string :=
  "Running batch " +:+ str (Z.of_nat index) +:+ " of " +:+ str (len batches)
  +:+ ", size " +:+ str (len (default [] (batches !! index))).

(** One round of the [for index in range(...)] loop of [_run_batches] up
    to the end of its [async with] block: the tasks of the wave that starts
    at [index], and their results in submission order. *)
Definition wave (self : t) (batches : list (list HistoricAgentRecord.t))
    (metadata : loc) (index : nat) : M (list BatchAnalysisRecord.t) :=
  print (wave_banner batches index) ;;
  let batch_chunk := slice batches index (Z.to_nat (concurrency self)) in
  task_group ((λ batch, _run_agent self batch metadata) <$> batch_chunk).

(** The [for index in range(...)] loop of [_run_batches] over the indices
    that are left: after each wave, [for task in as_completed(tasks): yield
    await task]. *)
Fixpoint run_waves (self : t) (batches : list (list HistoricAgentRecord.t))
    (metadata : loc) (indices : list nat) : Gen BatchAnalysisRecord.t :=
  match indices with
  | [] => Stop
  | index :: indices' =>
      lift (wave self batches metadata index)
        (λ tasks, yield_all (as_completed tasks)
                    (run_waves self batches metadata indices'))
  end.

(** [_run_batches].  [range] refuses a zero step and is empty for a
    negative one. *)
Definition _run_batches (self : t) (batches : list (list HistoricAgentRecord.t))
    (metadata : loc) : Gen BatchAnalysisRecord.t :=
  if concurrency self =? 0 then Throw (ValueError "range() arg 3 must not be zero")
  else if concurrency self <? 0 then Stop
  else run_waves self batches metadata
         (range0 (length batches) (Z.to_nat (concurrency self))).

(** What [run] does before its first [yield]: the merged metadata and
    the batches. *)
Definition prepare (self : t) (input : Gen HistoricAgentRecord.t) (metadata : loc)
    : M (loc * list (list HistoricAgentRecord.t)) :=
  caller <- get_dict metadata ;;
  metadata <- new_dict (run_metadata self caller) ;;
  state <- form_batches self input [] [] ;;
  ret (metadata, seal_trailing (fst state) (snd state)).

(** [run]. *)
Definition run (self : t) (input : Gen HistoricAgentRecord.t) (metadata : loc)
    : Gen BatchAnalysisRecord.t :=
  lift (prepare self input metadata)
    (λ p, async_for (_run_batches self (snd p) (fst p)) (λ record, record) []
            (λ _, Stop)).

(** The stage as a pipeline object. *)
Definition as_pipeline (self : t) : Pipeline.t HistoricAgentRecord.t BatchAnalysisRecord.t :=
  Pipeline.mk _ _ "CookieFunBatchedAnalysisPipeline" (run self).

End CookieFunBatchedAnalysisPipeline.
End CookieFunBatchedAnalysisPipeline.

(** ** [analysis/pipelines/recursion_pipeline.py] *)

Module RecursionPipeline.

(** What the stage yields: Python tuples [(item, input_list)] whose first
    component is a result of the inner pipeline or, for a tuple handed
    up by a recursive call, such a tuple again. *)
Inductive elem (I O : Type) : Type :=
| Plain (item : O)
| Pair (item : elem I O) (input_list : list I).
Arguments Plain {I O} item.
Arguments Pair {I O} item input_list.

Section RecursionPipeline.
Context `{Runtime} {I O : Type}.

Record t : Type := mk {
  pipeline : Pipeline.t I O;
  mapper : list O → list I;
  stopper : list O → bool;
  max_depth : Z;
}.

(** The [ValueError] of the depth guard. *)
Definition max_depth_error (self : t) : exn :=
  ValueError ("Max depth of " +:+ str (max_depth self) +:+ " reached while recursing "
              +:+ Pipeline.cls_name (pipeline self)).

(** What [_run] does below its depth guard until the inner pipeline is
    started: the materialised input and the metadata of this depth. *)
Definition enter (self : t) (input : Gen I) (metadata : loc) (depth : Z)
    : M (list I * loc) :=
  input_list <- materialize input [] ;;
  caller <- get_dict metadata ;;
  metadata <- new_dict (<["recursion_depth" := PyInt depth]> caller) ;;
  print ("Running pipeline " +:+ Pipeline.cls_name (pipeline self) +:+ " at depth "
         +:+ str depth +:+ " on " +:+ str (len input_list)
         +:+ " items before filtering") ;;
  ret (input_list, metadata).

(** The body of [_run] below the depth guard, with [recurse] standing
    for the call [self._run(_, _, depth + 1)]. *)
Definition _run_body (self : t) (recurse : Gen I → loc → Gen (elem I O))
    (input : Gen I) (metadata : loc) (depth : Z) : Gen (elem I O) :=
  lift (enter self input metadata depth)
    (λ p,
       let input_list := fst p in
       let metadata := snd p in
       async_for (Pipeline.run (pipeline self) (of_list input_list) metadata)
         (λ item, Pair (Plain item) input_list) []
         (λ results,
            if stopper self results then Stop
            else
              let sub_input_list := mapper self results in
              let sub_input := of_list sub_input_list in
              async_for (recurse sub_input metadata)
                (λ item, Pair item sub_input_list) [] (λ _, Stop))).

(** [_run] with [fuel] levels left before the depth guard fires. *)
Fixpoint _run_fuel (fuel : nat) (self : t) (input : Gen I) (metadata : loc) (depth : Z)
    : Gen (elem I O) :=
  match fuel with
  | 0%nat => Throw (max_depth_error self)
  | S fuel' =>
      _run_body self (λ sub_input metadata', _run_fuel fuel' self sub_input metadata' (depth + 1))
        input metadata depth
  end.

(** [_run]: the guard [depth >= self.max_depth] fires exactly when no
    level is left. *)
Definition _run (self : t) (input : Gen I) (metadata : loc) (depth : Z) : Gen (elem I O) :=
  _run_fuel (Z.to_nat (max_depth self - depth)) self input metadata depth.

(** [run]. *)
Definition run (self : t) (input : Gen I) (metadata : loc) : Gen (elem I O) :=
  async_for (_run self input metadata 0) (λ item, item) [] (λ _, Stop).

Definition as_pipeline (self : t) : Pipeline.t I (elem I O) :=
  Pipeline.mk _ _ "RecursionPipeline" (run self).

End RecursionPipeline.
End RecursionPipeline.

(** ** [IngestionRunRecord] of [app/storage/cookie_fun.py] *)

Module IngestionRunRecord.

(** A row of [ingestion_runs] with its [agents] relationship loaded, as
    [eagerly_load_all] leaves it. *)
Record t : Type := mk {
  id : Z;
  created_at : Z;
  delta_interval_time : string;
  agents : list HistoricAgentRecord.t;
}.

End IngestionRunRecord.

(** ** [analysis/pipelines/cookie_fun_runs.py] *)

Module CookieFunSpecificRunPipeline.
Section CookieFunSpecificRunPipeline.
Context `{Runtime}.

Record t : Type := mk {
  ingestion_run : IngestionRunRecord.t;
}.

(** [run]: [for agent in self.ingestion_run.agents: yield agent]; the
    [input] (which is [None] for this source) and the metadata are not
    looked at. *)
Definition run {T} (self : t) (input : Gen T) (metadata : loc) : Gen HistoricAgentRecord.t :=
  of_list (IngestionRunRecord.agents (ingestion_run self)).

Definition as_pipeline {T} (self : t) : Pipeline.t T HistoricAgentRecord.t :=
  Pipeline.mk _ _ "CookieFunSpecificRunPipeline" (run self).

End CookieFunSpecificRunPipeline.
End CookieFunSpecificRunPipeline.

(** Short names for the two stages. *)
Module Batched := CookieFunBatchedAnalysisPipeline.
Module Recursion := RecursionPipeline.

(** ** [app/analysis/cookie_fun.py] *)

Module CookieFunAnalysis.

(** The newline character, as a string. *)
Definition newline : string := String "010"%char EmptyString.

(** The separator line that [load_prompt] looks for. *)
Definition separator : string := newline +:+ "---" +:+ newline.

(** [s.startswith(sub)]. *)
Fixpoint startswith (s sub : string) {struct sub} : bool :=
  match sub with
  | EmptyString => true
  | String c sub' =>
      match s with
      | EmptyString => false
      | String d s' => bool_decide (c = d) && startswith s' sub'
      end
  end.

(** [s.find(sub)]: the lowest index at which [sub] occurs in [s]; [None]
    stands for the answer [-1], which is also when [sub in s] is false. *)
Fixpoint find (s sub : string) : option nat :=
  if startswith s sub then Some 0%nat
  else match s with
       | EmptyString => None
       | String _ s' => S <$> find s' sub
       end.

(** [s[:n]]. *)
Fixpoint str_take (n : nat) (s : string) : string :=
  match n, s with
  | S n', String c s' => String c (str_take n' s')
  | _, _ => EmptyString
  end.

(** [s[n:]]. *)
Fixpoint str_drop (n : nat) (s : string) : string :=
  match n, s with
  | S n', String c s' => str_drop n' s'
  | _, _ => s
  end.

(** A value of a YAML mapping, as far as [load_prompt] tells values apart:
    a string; another hashable value (a number, a boolean, [None]), with
    what [str] shows of it; or a list or mapping, which cannot be a key,
    with the name of its type. *)
Inductive yaml_value : Type :=
| YamlStr (s : string)
| YamlHashable (shown : string)
| YamlUnhashable (type_name : string).

(** What [yaml.safe_load] makes of the front matter: it raises; or it
    returns a mapping, of which [load_prompt] reads the key [filter]; or it
    returns an object of another type ([NoneType] for an empty document). *)
Inductive yaml_document : Type :=
| YamlRaises
| YamlMapping (filter : option yaml_value)
| YamlNoMapping (type_name : string).

(** How [load_prompt] fails. *)
Inductive failure : Type :=
| YAMLError
| AttributeError (msg : string)
| TypeError (msg : string)
| ValueError (msg : string).

Section CookieFunAnalysis.
Context `{Runtime}.

(** The collaborators: the YAML loader, the hash function, the two
    language-model services and the three filters on the market data. *)
Variable safe_load : string → yaml_document.
Variable sha256_hexdigest : string → string.
Variable analyze_agents :
  string → option string → IngestionRunRecord.t → list dict → Env → Outcome string * Env.
Variable identify_top_agents :
  list HistoricAgentRecord.t → string → Env → Outcome (list Z) * Env.
Variables small_caps_filter large_caps_filter resilience_filter : HistoricAgentRecord.t → bool.

(** [filters.get(name, None)]. *)
Definition filters (name : string) : option (HistoricAgentRecord.t → bool) :=
  if bool_decide (name = "unfiltered") then Some (λ _, true)
  else if bool_decide (name = "small_caps") then Some small_caps_filter
  else if bool_decide (name = "large_caps") then Some large_caps_filter
  else if bool_decide (name = "resilient") then Some resilience_filter
  else None.

(** [create_analysis_pipeline]; [max_batches] and [concurrency] are the
    defaults of the stage. *)
Definition create_analysis_pipeline (ingestion_run : IngestionRunRecord.t)
    (analysis_type prompt : string) (filter : HistoricAgentRecord.t → bool)
    (context : option string) (ignore_cached : bool)
    : CookieFunBatchedAnalysisPipeline.t :=
  CookieFunBatchedAnalysisPipeline.mk analysis_type
    (analyze_agents prompt context ingestion_run) identify_top_agents filter
    ignore_cached 15 20 10 {[ "model" := PyStr "o3-mini" ]}.

(** The front matter, if there is a separator line, and the prompt. *)
Definition split_prompt_file (prompt_file_content : string) : option string * string :=
  let prompt_file_content := newline +:+ prompt_file_content in
  match find prompt_file_content separator with
  | Some separator_index =>
      (Some (str_take separator_index prompt_file_content),
       str_drop (separator_index + 4) prompt_file_content)
  | None => (None, prompt_file_content)
  end.

(** [load_prompt], from the content of the prompt file on. *)
Definition load_prompt (prompt_file_content : string) (ingestion_run : IngestionRunRecord.t)
    (context : option string) (ignore_cached : bool)
    : failure + CookieFunBatchedAnalysisPipeline.t :=
  let '(yaml_frontmatter, prompt) := split_prompt_file prompt_file_content in
  match yaml_frontmatter with
  | None => inl (AttributeError "'NoneType' object has no attribute 'get'")
  | Some yaml_frontmatter =>
      match safe_load yaml_frontmatter with
      | YamlRaises => inl YAMLError
      | YamlNoMapping type_name =>
          inl (AttributeError ("'" +:+ type_name +:+ "' object has no attribute 'get'"))
      | YamlMapping filter =>
          match default (YamlStr "unfiltered") filter with
          | YamlUnhashable type_name =>
              inl (TypeError ("unhashable type: '" +:+ type_name +:+ "'"))
          | YamlHashable shown => inl (ValueError ("Filter '" +:+ shown +:+ "' not found"))
          | YamlStr filter_name =>
              match filters filter_name with
              | None => inl (ValueError ("Filter '" +:+ filter_name +:+ "' not found"))
              | Some filter =>
                  inr (create_analysis_pipeline ingestion_run
                         (filter_name +:+ ":" +:+ str_take 6 (sha256_hexdigest prompt))
                         prompt filter context ignore_cached)
              end
          end
      end
  end.

End CookieFunAnalysis.
End CookieFunAnalysis.

(** ** The loop of the [analyze] command of [cli.py] *)

Module Cli.
Section Cli.
Context `{Runtime}.

(** How the command can fail: on an attribute that an object does not
    have, on a tuple assignment from an object that is no tuple, or with an
    exception of the pipeline, which the command does not catch. *)
Inductive failure : Type :=
| AttributeError (msg : string)
| TypeError (msg : string)
| Uncaught (e : exn).

(** The formatting of [analysis_record.id] in an f-string. *)
Definition str_id (id : option Z) : string :=
  match id with
  | Some z => str z
  | None => "None"
  end.

(** The line echoed for an item of the run. *)
Definition created_line (analysis_record : BatchAnalysisRecord.t)
    (input_records : list HistoricAgentRecord.t) : string :=
  "Created analysis record " +:+ str_id (BatchAnalysisRecord.id analysis_record)
  +:+ " for " +:+ str (len input_records) +:+ " agents".

(** [pipeline = CookieFunSpecificRunPipeline(ingestion_run) | recursion]. *)
Definition pipeline {T} (ingestion_run : IngestionRunRecord.t)
    (recursion : @RecursionPipeline.t _ HistoricAgentRecord.t BatchAnalysisRecord.t)
    : Pipeline.t T (RecursionPipeline.elem HistoricAgentRecord.t BatchAnalysisRecord.t) :=
  Pipeline.__ror__ (RecursionPipeline.as_pipeline recursion)
    (CookieFunSpecificRunPipeline.as_pipeline (CookieFunSpecificRunPipeline.mk ingestion_run)).

(** The loop [async for analysis_record, input_records in ...] and the
    final [click.echo(latest_analysis_record.analysis)], over the
    generator [g] of the run.  The lines that [click.echo] writes are
    collected in [echoed], in their order, apart from the lines that the
    stages print.  The tuple assignment needs a tuple; [analysis_record.id]
    needs a record, which a tuple is not; the final line needs a record,
    which [None] is not.  A failure ends the command: the generator is not
    resumed. *)
Fixpoint analyze_loop
    (g : Gen (RecursionPipeline.elem HistoricAgentRecord.t BatchAnalysisRecord.t))
    (latest_analysis_record : option BatchAnalysisRecord.t) (echoed : list string)
    (w : World) : option failure * list string * World :=
  match g with
  | Stop =>
      match latest_analysis_record with
      | None => (Some (AttributeError "'NoneType' object has no attribute 'analysis'"),
                 echoed, w)
      | Some record => (None, echoed ++ [BatchAnalysisRecord.analysis record], w)
      end
  | Throw e => (Some (Uncaught e), echoed, w)
  | Yield item rest =>
      match item with
      | RecursionPipeline.Pair (RecursionPipeline.Plain analysis_record) input_records =>
          analyze_loop rest (Some analysis_record)
            (echoed ++ [created_line analysis_record input_records]) w
      | RecursionPipeline.Pair (RecursionPipeline.Pair _ _) _ =>
          (Some (AttributeError "'tuple' object has no attribute 'id'"), echoed, w)
      | RecursionPipeline.Plain _ =>
          (Some (TypeError "cannot unpack non-iterable BatchAnalysisRecord object"),
           echoed, w)
      end
  | Await step => let '(g', w') := step w in analyze_loop g' latest_analysis_record echoed w'
  end.

(** The command from [pipeline.run(None)] on: the input is never
    iterated, [metadata] is the default dict of [run]. *)
Definition analyze (ingestion_run : IngestionRunRecord.t)
    (recursion : @RecursionPipeline.t _ HistoricAgentRecord.t BatchAnalysisRecord.t)
    (metadata : loc) (w : World) : option failure * list string * World :=
  analyze_loop (Pipeline.run (pipeline ingestion_run recursion) (Stop : Gen unit) metadata)
    None [] w.

End Cli.
End Cli.

(** ** Auxiliary notions used by the statements *)

(** The number of calls of the [agent] callback in a call log. *)
Definition agent_calls (cs : list call) : nat :=
  length (List.filter (λ c, match c with CallAgent _ => true | _ => false end) cs).

(** The number of calls of [identify_top_agents] in a call log. *)
Definition identify_calls (cs : list call) : nat :=
  length (List.filter (λ c, match c with CallIdentifyTopAgents _ _ => true | _ => false end) cs).

(** Is an exception the empty-batch error, or a group that holds it? *)
Fixpoint is_empty_batch_error (e : exn) : bool :=
  match e with
  | ValueError msg => bool_decide (msg = "Batch is empty")
  | CollaboratorFailure _ => false
  | ExceptionGroup _ excs => existsb is_empty_batch_error excs
  end.

(** Is a yielded element the flat pair [(result, input_list)]? *)
Definition is_flat_pair {I O} (x : RecursionPipeline.elem I O) : bool :=
  match x with
  | RecursionPipeline.Pair (RecursionPipeline.Plain _) _ => true
  | _ => false
  end.

Section Frames.
Context `{Runtime}.



(** The row [row] is stored under the key of the work unit of [batch]: the
    run id of its first record, the analysis type of the stage and the
    fingerprint of its ids. *)
Definition stored_for (self : CookieFunBatchedAnalysisPipeline.t)
    (batch : list HistoricAgentRecord.t) (row : BatchAnalysisRecord.t) : Prop :=
  ∃ first rest,
    batch = first :: rest
    ∧ BatchAnalysisRecord.matches (CookieFunBatchedAnalysisPipeline.analysis_type self)
        (HistoricAgentRecord.ingestion_run_id first)
        (BatchAnalysisRecord.serialize_agent_ids (HistoricAgentRecord.id <$> batch))
        row = true.

(** The async computation [m] keeps the property [P] of the world. *)
Definition m_keeps {A} (P : World → Prop) (m : M A) : Prop :=
  ∀ w, P w → P (m w).2.

(** Every step of the generator [g] keeps the property [P] of the world. *)
Inductive keeps (P : World → Prop) {O : Type} : Gen O → Prop :=
| keeps_Stop : keeps P Stop
| keeps_Throw e : keeps P (Throw e)
| keeps_Yield o rest : keeps P rest → keeps P (Yield o rest)
| keeps_Await step :
    (∀ w, P w → P (step w).2) →
    (∀ w, P w → keeps P (step w).1) →
    keeps P (Await step).

(** The dict object at [l] is [d]. *)
Definition dict_at (l : loc) (d : dict) (w : World) : Prop := heap w !! l = Some d.

End Frames.

(** ** Concrete runs *)

Module Scenario.

(** A runtime whose services have a call counter for state and whose
    event loop hands results back in submission order. *)
#[local] Instance runtime : Runtime := {|
  Ext := nat;
  as_completed := λ A l, l;
  as_completed_perm := λ A l, reflexivity l;
|}.

Definition record (i : Z) : HistoricAgentRecord.t :=
  HistoricAgentRecord.mk i 7 "agent" 0 ∅.

(** A world with an empty table and the caller's metadata dict at
    reference [0]. *)
Definition world : World :=
  mkWorld [] [{[ "source" := PyStr "cli" ]}] [] [] (mkEnv 100 0%nat).

(** An analysis service that answers, taking one tick of the clock. *)
Definition agent (payload : list dict) (e : Env) : Outcome string * Env :=
  (Done "analysis", mkEnv (now e + 1) (S (oracle e))).

(** An analysis service that fails the call it receives after [k] calls
    have been answered, and answers every other call. *)
Definition flaky_agent (k : nat) (payload : list dict) (e : Env) : Outcome string * Env :=
  if bool_decide (oracle e = k) then (Failed 503, mkEnv (now e + 1) (S (oracle e)))
  else (Done "analysis", mkEnv (now e + 1) (S (oracle e))).

(** A shortlist service that keeps the first record of the batch. *)
Definition identify_top_agents (batch : list HistoricAgentRecord.t) (text : string)
    (e : Env) : Outcome (list Z) * Env :=
  (Done (HistoricAgentRecord.id <$> take 1 batch), e).

Definition batched (batch_size max_batches concurrency : Z)
    : CookieFunBatchedAnalysisPipeline.t :=
  CookieFunBatchedAnalysisPipeline.mk "unfiltered:abc123" agent identify_top_agents
    (λ _, true) false batch_size max_batches concurrency {[ "model" := PyStr "o3-mini" ]}.

(** The same stage over the service that fails its call number [k + 1]. *)
Definition flaky_batched (k : nat) (batch_size max_batches concurrency : Z)
    : CookieFunBatchedAnalysisPipeline.t :=
  CookieFunBatchedAnalysisPipeline.mk "unfiltered:abc123" (flaky_agent k) identify_top_agents
    (λ _, true) false batch_size max_batches concurrency {[ "model" := PyStr "o3-mini" ]}.

(** A stage that yields every item of its input. *)
Definition echo : Pipeline.t Z Z :=
  Pipeline.mk _ _ "Echo" (λ input _, async_for input (λ item, item) [] (λ _, Stop)).

(** A recursion over [echo] that drops the last result of a round and
    stops once a round has at most one result. *)
Definition recursion (max_depth : Z) : RecursionPipeline.t :=
  RecursionPipeline.mk echo (λ results, take (length results - 1) results)
    (λ results, bool_decide (len results ≤ 1)) max_depth.

(** A recursion over [echo] whose stop predicate never fires. *)
Definition restless (max_depth : Z) : RecursionPipeline.t :=
  RecursionPipeline.mk echo (λ results, results) (λ _, false) max_depth.

(** The recursion of [create_recursion_pipeline], over a batching stage:
    the next round analyses the records shortlisted by this round, until a
    round has at most one result. *)
Definition shortlist_recursion : RecursionPipeline.t :=
  RecursionPipeline.mk (CookieFunBatchedAnalysisPipeline.as_pipeline (batched 2 20 2))
    (λ analysis_records, record <$> (analysis_records ≫= BatchAnalysisRecord.top_agent_ids))
    (λ analysis_records, bool_decide (len analysis_records ≤ 1)) 8.




End Scenario.

(** Does a comma occur in a string? *)
Fixpoint has_comma (s : string) : bool :=
  match s with
  | EmptyString => false
  | String c s' => Ascii.eqb c ","%char || has_comma s'
  end.

(** * Properties *)

(** ** The Python primitives *)

Example str_examples : str 0 = "0" ∧ str 105 = "105" ∧ str (-12) = "-12".
Proof. repeat split. Qed.

Example serialize_agent_ids_example :
  BatchAnalysisRecord.serialize_agent_ids [3; 1; 2; 10] = "1,2,3,10"
  ∧ BatchAnalysisRecord.serialize_agent_ids [] = "".
Proof. split; reflexivity. Qed.

Example range0_examples :
  range0 5 2 = [0; 2; 4]%nat ∧ range0 4 2 = [0; 2]%nat ∧ range0 0 3 = [].
Proof. repeat split. Qed.

Lemma range_from_elem fuel start step i :
  i ∈ range_from fuel start step ↔ ∃ k, (k < fuel ∧ i = start + k * step)%nat.
Proof.
  revert start. induction fuel as [|fuel IH]; intros start; simpl.
  - split; [by intros ?%elem_of_nil|intros (k & ? & _); lia].
  - rewrite elem_of_cons, IH. split.
    + intros [->|(k & Hk & ->)]; [exists 0%nat; lia|exists (S k); lia].
    + intros ([|k] & Hk & ->); [left; lia|right; exists k; lia].
Qed.

(** [range0 stop step] holds the multiples of [step] below [stop]. *)
Lemma range0_elem stop step i :
  (0 < step)%nat → i ∈ range0 stop step ↔ (i < stop)%nat ∧ ∃ k, (i = k * step)%nat.
Proof.
  intros Hstep. unfold range0. rewrite range_from_elem. split.
  - intros (k & Hk & ->). split; [|by exists k].
    pose proof (Nat.Div0.mul_div_le (stop + step - 1) step). nia.
  - intros (Hi & k & ->). exists k. split; [|lia].
    apply Nat.div_le_lower_bound; nia.
Qed.

Lemma concat_slices {A} (l : list A) step fuel start :
  (0 < step)%nat → (length l ≤ start + fuel * step)%nat →
  concat ((λ i, slice l i step) <$> range_from fuel start step) = drop start l.
Proof.
  intros Hstep. revert start. induction fuel as [|fuel IH]; intros start Hlen; simpl.
  - rewrite drop_ge; [done|lia].
  - rewrite IH by lia. unfold slice. rewrite <-drop_drop. apply take_drop.
Qed.

(** The slices of length [step] at the indices of [range0] are consecutive
    chunks of at most [step] items that make up the list. *)
Lemma slices_cover {A} (l : list A) step :
  (0 < step)%nat →
  concat ((λ i, slice l i step) <$> range0 (length l) step) = l
  ∧ Forall (λ i, length (slice l i step) ≤ step)%nat (range0 (length l) step).
Proof.
  intros Hstep. split.
  - unfold range0. rewrite concat_slices; [done..|].
    pose proof (Nat.div_mod_eq (length l + step - 1) step).
    pose proof (Nat.mod_upper_bound (length l + step - 1) step). nia.
  - apply Forall_forall. intros i _. unfold slice. rewrite length_take. lia.
Qed.

(** ** The fingerprint of a batch *)

Section Fingerprint.

Lemma has_comma_app s1 s2 :
  has_comma (s1 +:+ s2) = has_comma s1 || has_comma s2.
Proof.
  induction s1 as [|c s1 IH]; simpl; [done|].
  rewrite IH. by rewrite orb_assoc.
Qed.

Lemma pretty_N_char_not_comma x : Ascii.eqb (pretty_N_char x) ","%char = false.
Proof. unfold pretty_N_char. by repeat case_match. Qed.

Lemma pretty_N_go_comma x s :
  has_comma s = false → has_comma (pretty_N_go x s) = false.
Proof.
  revert s. induction (N.lt_wf_0 x) as [x _ IH]; intros s Hs.
  assert (x = 0 ∨ 0 < x)%N as [->|Hx] by lia.
  - by rewrite pretty_N_go_0.
  - rewrite pretty_N_go_step by done.
    apply IH; [by apply N.div_lt|].
    simpl. by rewrite pretty_N_char_not_comma, Hs.
Qed.

Lemma pretty_N_go_nonempty x s : s ≠ "" → pretty_N_go x s ≠ "".
Proof.
  revert s. induction (N.lt_wf_0 x) as [x _ IH]; intros s Hs.
  assert (x = 0 ∨ 0 < x)%N as [->|Hx] by lia.
  - by rewrite pretty_N_go_0.
  - rewrite pretty_N_go_step by done.
    apply IH; [by apply N.div_lt|done].
Qed.

Lemma pretty_N_comma (x : N) : has_comma (pretty x) = false.
Proof.
  unfold pretty, pretty_N. case_decide; [done|].
  by apply pretty_N_go_comma.
Qed.

Lemma pretty_N_nonempty (x : N) : pretty x ≠ "".
Proof.
  unfold pretty, pretty_N. case_decide; [done|].
  rewrite pretty_N_go_step by lia.
  by apply pretty_N_go_nonempty.
Qed.

(** [str] never writes a comma, never the empty string, and tells any
    two integers apart. *)
Lemma str_comma i : has_comma (str i) = false.
Proof.
  unfold str, pretty, pretty_Z. destruct i as [|p|p]; [done|..].
  - apply pretty_N_comma.
  - rewrite has_comma_app. simpl. apply pretty_N_comma.
Qed.

Lemma str_nonempty i : str i ≠ "".
Proof.
  unfold str, pretty, pretty_Z. destruct i as [|p|p]; [done|..].
  - apply pretty_N_nonempty.
  - done.
Qed.

#[local] Instance str_inj : Inj (=) (=) str.
Proof. apply pretty_Z_inj. Qed.

(** Cutting a joined string at its first comma. *)
Lemma cut_at_comma a b ta tb :
  has_comma a = false → has_comma b = false →
  a +:+ "," +:+ ta = b +:+ "," +:+ tb → a = b ∧ ta = tb.
Proof.
  revert b. induction a as [|c a IH]; intros [|d b] Ha Hb Heq;
    simplify_eq/=; try done.
  apply orb_false_elim in Ha as [_ Ha].
  apply orb_false_elim in Hb as [_ Hb].
  by destruct (IH b Ha Hb) as [-> ->].
Qed.

Lemma join_cons_cons s1 s2 l :
  join "," (s1 :: s2 :: l) = s1 +:+ "," +:+ join "," (s2 :: l).
Proof. done. Qed.

(** [join] is injective on comma-free, non-empty pieces. *)
Lemma join_inj (l1 l2 : list string) :
  Forall (λ s, has_comma s = false ∧ s ≠ "") l1 →
  Forall (λ s, has_comma s = false ∧ s ≠ "") l2 →
  join "," l1 = join "," l2 → l1 = l2.
Proof.
  intros H1. revert l2.
  induction H1 as [|s1 l1 [Hc1 Hn1] H1 IH]; intros l2 H2 Heq.
  - destruct H2 as [|s2 l2 [Hc2 Hn2] H2]; [done|].
    destruct l2 as [|s3 l2].
    + simpl in Heq. by subst.
    + rewrite join_cons_cons in Heq. by destruct s2.
  - destruct H2 as [|s2 l2 [Hc2 Hn2] H2].
    + destruct l1 as [|s3 l1].
      * simpl in Heq. by subst.
      * rewrite join_cons_cons in Heq. by destruct s1.
    + destruct l1 as [|s3 l1], l2 as [|s4 l2].
      * simpl in Heq. by subst.
      * rewrite join_cons_cons in Heq. change (join "," [s1]) with s1 in Heq.
        subst s1.
        rewrite !has_comma_app in Hc1. simpl in Hc1.
        by rewrite orb_true_r in Hc1.
      * rewrite join_cons_cons in Heq. change (join "," [s2]) with s2 in Heq.
        subst s2.
        rewrite !has_comma_app in Hc2. simpl in Hc2.
        by rewrite orb_true_r in Hc2.
      * rewrite !join_cons_cons in Heq.
        apply cut_at_comma in Heq as [-> Heq]; [|done..].
        f_equal. by apply IH.
Qed.

Lemma sorted_Permutation l : sorted l ≡ₚ l.
Proof. apply merge_sort_Permutation. Qed.

Lemma sorted_proper l1 l2 : l1 ≡ₚ l2 → sorted l1 = sorted l2.
Proof.
  intros Hp. apply (Sorted_unique Z.le).
  - apply (Sorted_merge_sort Z.le).
  - apply (Sorted_merge_sort Z.le).
  - by rewrite !sorted_Permutation.
Qed.

(** The fingerprint determines the batch's ids up to their order, and
    nothing more. *)
Lemma serialize_agent_ids_Permutation l1 l2 :
  BatchAnalysisRecord.serialize_agent_ids l1 = BatchAnalysisRecord.serialize_agent_ids l2
  ↔ l1 ≡ₚ l2.
Proof.
  unfold BatchAnalysisRecord.serialize_agent_ids. split.
  - intros Heq. apply join_inj in Heq.
    + apply (inj (fmap str)) in Heq.
      by rewrite <-(sorted_Permutation l1), <-(sorted_Permutation l2), Heq.
    + apply Forall_fmap, Forall_forall. intros i _. simpl.
      split; [apply str_comma|apply str_nonempty].
    + apply Forall_fmap, Forall_forall. intros i _. simpl.
      split; [apply str_comma|apply str_nonempty].
  - intros Hp. by rewrite (sorted_proper l1 l2 Hp).
Qed.

End Fingerprint.

(** Claim C4.  The fingerprint (the ids sorted ascending, written in decimal
    and joined by commas) is the same for two id lists exactly when one is a
    rearrangement of the other: it does not depend on the order of the ids,
    and id lists that differ as multisets get different fingerprints.  In
    particular [3,1,2] and [1,2,3] have the same fingerprint, and [1,2] and
    [1,2,3] have different ones. *)
Theorem fingerprint_permutation_invariant_and_injective :
  (∀ ids1 ids2 : list Z,
     ids1 ≡ₚ ids2 →
     BatchAnalysisRecord.serialize_agent_ids ids1
     = BatchAnalysisRecord.serialize_agent_ids ids2)
  ∧ (∀ ids1 ids2 : list Z,
       ¬ ids1 ≡ₚ ids2 →
       BatchAnalysisRecord.serialize_agent_ids ids1
       ≠ BatchAnalysisRecord.serialize_agent_ids ids2)
  ∧ BatchAnalysisRecord.serialize_agent_ids [3; 1; 2]
    = BatchAnalysisRecord.serialize_agent_ids [1; 2; 3]
  ∧ BatchAnalysisRecord.serialize_agent_ids [1; 2]
    ≠ BatchAnalysisRecord.serialize_agent_ids [1; 2; 3].
Proof.
  split; [|split; [|split]].
  - intros ids1 ids2 Hp. by apply serialize_agent_ids_Permutation.
  - intros ids1 ids2 Hp Heq. by apply Hp, serialize_agent_ids_Permutation.
  - reflexivity.
  - discriminate.
Qed.

(** The two id lists of the specification, through the general statement. *)
Lemma fingerprint_permutation_invariant_and_injective_witness :
  BatchAnalysisRecord.serialize_agent_ids [3; 1; 2]
  = BatchAnalysisRecord.serialize_agent_ids [1; 2; 3]
  ∧ BatchAnalysisRecord.serialize_agent_ids [1; 2]
    ≠ BatchAnalysisRecord.serialize_agent_ids [1; 2; 3].
Proof.
  split.
  - apply (proj1 fingerprint_permutation_invariant_and_injective).
    apply (bool_decide_unpack _). vm_compute. exact I.
  - apply (proj1 (proj2 fingerprint_permutation_invariant_and_injective)).
    intros Hperm. apply Permutation_length in Hperm. discriminate.
Defined.

(** ** Generators *)

Section GeneratorFacts.
Context `{Runtime}.

(** Induction on a generator: what follows an [Await] is covered in
    every world. *)
Lemma Gen_ind {O} (P : Gen O → Prop) :
  P Stop →
  (∀ e, P (Throw e)) →
  (∀ o rest, P rest → P (Yield o rest)) →
  (∀ step, (∀ w, P (step w).1) → P (Await step)) →
  ∀ g, P g.
Proof.
  intros HStop HThrow HYield HAwait. fix IH 1. intros [|e|o rest|step].
  - exact HStop.
  - apply HThrow.
  - apply HYield, IH.
  - apply HAwait. intros w. apply IH.
Qed.

(** Re-yielding every item of a generator gives the generator back. *)
Lemma async_for_reyield {O} (g : Gen O) (acc : list O) :
  async_for g (λ item, item) acc (λ _, Stop) = g.
Proof.
  revert acc. induction g as [|e|o rest IH|step IH] using Gen_ind; intros acc; simpl.
  - done.
  - done.
  - by rewrite IH.
  - f_equal. apply functional_extensionality. intros w.
    specialize (IH w). destruct (step w) as [g' w']. simpl in IH.
    by rewrite IH.
Qed.

Lemma drive_lift {A O} (m : M A) (k : A → Gen O) w :
  drive (lift m k) w
  = match m w with
    | (Ok a, w') => drive (k a) w'
    | (Raise e, w') => ([], Some e, w')
    end.
Proof. simpl. by destruct (m w) as [[a|e] w']. Qed.

(** Driving a loop over a generator: the generator is driven to its end;
    if it ends normally, what follows the loop is driven from there. *)
Lemma drive_async_for {A B} (g : Gen A) (f : A → B) (acc : list A)
    (after : list A → Gen B) w :
  drive (async_for g f acc after) w
  = let '(os, r, w1) := drive g w in
    match r with
    | None =>
        let '(os', r', w2) := drive (after (acc ++ os)) w1 in
        ((f <$> os) ++ os', r', w2)
    | Some e => (f <$> os, Some e, w1)
    end.
Proof.
  revert acc w. induction g as [|e|o rest IH|step IH] using Gen_ind; intros acc w.
  - simpl. rewrite app_nil_r. by destruct (drive (after acc) w) as [[os' r'] w2].
  - done.
  - simpl. rewrite IH. destruct (drive rest w) as [[os [e|]] w1]; [done|].
    rewrite <-(assoc_L (++)). simpl.
    by destruct (drive (after (acc ++ o :: os)) w1) as [[os' r'] w2].
  - simpl. specialize (IH w). destruct (step w) as [g' w1]. apply IH.
Qed.

End GeneratorFacts.

(** ** Composition of pipelines *)

(** Claim C9.  For any two stages [A] and [B], any input generator and any
    metadata reference, the run of the composed stage [A | B] is the run of
    [B] on the run of [A] on the input, both given the same metadata
    reference; so it yields the same items, ends the same way and leaves the
    same world, from every world. *)
Theorem composition_runs_second_on_output_of_first
    `{Runtime} {T I O : Type} (A : Pipeline.t T I) (B : Pipeline.t I O)
    (input : Gen T) (metadata : loc) :
  Pipeline.run (Pipeline.__ror__ B A) input metadata
  = Pipeline.run B (Pipeline.run A input metadata) metadata
  ∧ ∀ w, drive (Pipeline.run (Pipeline.__ror__ B A) input metadata) w
         = drive (Pipeline.run B (Pipeline.run A input metadata) metadata) w.
Proof.
  assert (Pipeline.run (Pipeline.__ror__ B A) input metadata
          = Pipeline.run B (Pipeline.run A input metadata) metadata) as Heq.
  { simpl. unfold Pipeline.ComposedPipeline_run. apply async_for_reyield. }
  split; [exact Heq|]. intros w. by rewrite Heq.
Qed.

(** ** Batch formation *)

Section BatchFormation.
Context `{Runtime}.
Import CookieFunBatchedAnalysisPipeline.

Implicit Types (self : t) (input rest : Gen HistoricAgentRecord.t).
Implicit Types (record : HistoricAgentRecord.t).
Implicit Types (current_batch cur : list HistoricAgentRecord.t).
Implicit Types (batches bs : list (list HistoricAgentRecord.t)).

Lemma len_snoc {A} (l : list A) (x : A) : len (l ++ [x]) = len l + 1.
Proof. unfold len. rewrite length_app. simpl. lia. Qed.

Lemma len_nonneg {A} (l : list A) : 0 ≤ len l.
Proof. unfold len. lia. Qed.

Lemma geb_true x y : (x >=? y) = true ↔ y ≤ x.
Proof. rewrite Z.geb_leb. apply Z.leb_le. Qed.

Lemma geb_false x y : (x >=? y) = false ↔ x < y.
Proof. rewrite Z.geb_leb. apply Z.leb_gt. Qed.

(** While fewer than [max_batches] batches are sealed the loop goes on;
    it can only leave with the cap reached by sealing a batch, and then
    the running batch is empty. *)
Lemma form_batches_cap self input cur bs w cur' bs' w' :
  len bs < max_batches self →
  form_batches self input cur bs w = (Ok (cur', bs'), w') →
  len bs' < max_batches self ∨ (cur' = [] ∧ len bs' = max_batches self).
Proof.
  revert cur bs w.
  induction input as [|e|record rest IH|step IH] using Gen_ind;
    intros cur bs w Hlt Hrun; simpl in Hrun.
  - unfold ret in Hrun. simplify_eq. by left.
  - unfold raise in Hrun. simplify_eq.
  - destruct (filter_agents self record); simpl in Hrun; [|by eapply IH].
    destruct (len (cur ++ [record]) >=? batch_size self).
    + destruct (len (bs ++ [cur ++ [record]]) >=? max_batches self) eqn:Hcap.
      * unfold ret in Hrun. simplify_eq. right. split; [done|].
        apply geb_true in Hcap. rewrite len_snoc in *. lia.
      * apply geb_false in Hcap. by eapply IH.
    + destruct (len bs >=? max_batches self) eqn:Hcap.
      * apply geb_true in Hcap. lia.
      * by eapply IH.
  - specialize (IH w). destruct (step w) as [input' w1]. by eapply IH.
Qed.

(** Sealed batches are never empty. *)
Lemma form_batches_nonempty self input cur bs w cur' bs' w' :
  Forall (λ b, b ≠ []) bs →
  form_batches self input cur bs w = (Ok (cur', bs'), w') →
  Forall (λ b, b ≠ []) bs'.
Proof.
  revert cur bs w.
  induction input as [|e|record rest IH|step IH] using Gen_ind;
    intros cur bs w Hne Hrun; simpl in Hrun.
  - unfold ret in Hrun. by simplify_eq.
  - unfold raise in Hrun. simplify_eq.
  - destruct (filter_agents self record); simpl in Hrun; [|by eapply IH].
    assert (Forall (λ b, b ≠ []) (bs ++ [cur ++ [record]])) as Hne'.
    { apply Forall_app. split; [done|]. apply Forall_singleton. by destruct cur. }
    destruct (len (cur ++ [record]) >=? batch_size self).
    + destruct (len (bs ++ [cur ++ [record]]) >=? max_batches self).
      * unfold ret in Hrun. by simplify_eq.
      * exact (IH _ _ _ Hne' Hrun).
    + destruct (len bs >=? max_batches self).
      * unfold ret in Hrun. by simplify_eq.
      * exact (IH _ _ _ Hne Hrun).
  - specialize (IH w). destruct (step w) as [input' w1]. by eapply IH.
Qed.

Lemma seal_trailing_nonempty cur bs :
  Forall (λ b, b ≠ []) bs → Forall (λ b, b ≠ []) (seal_trailing cur bs).
Proof.
  intros Hne. destruct cur as [|record cur]; simpl; [done|].
  apply Forall_app. split; [done|]. by apply Forall_singleton.
Qed.

(** The loop fails only by its input failing, with that exception and
    at that point. *)
Lemma form_batches_raise self input cur bs w e w' :
  form_batches self input cur bs w = (Raise e, w') →
  ∃ ys, drive input w = (ys, Some e, w').
Proof.
  revert cur bs w.
  induction input as [|e0|record rest IH|step IH] using Gen_ind;
    intros cur bs w Hrun; simpl in Hrun.
  - unfold ret in Hrun. simplify_eq.
  - unfold raise in Hrun. simplify_eq. by exists [].
  - assert (∃ cur1 bs1, form_batches self rest cur1 bs1 w = (Raise e, w'))
      as (cur1 & bs1 & Hrest).
    { destruct (filter_agents self record); simpl in Hrun; [|by eauto].
      destruct (len (cur ++ [record]) >=? batch_size self).
      - destruct (len (bs ++ [cur ++ [record]]) >=? max_batches self);
          [unfold ret in Hrun; simplify_eq|by eauto].
      - destruct (len bs >=? max_batches self);
          [unfold ret in Hrun; simplify_eq|by eauto]. }
    apply IH in Hrest as [ys Hys]. exists (record :: ys). simpl. by rewrite Hys.
  - specialize (IH w). simpl. destruct (step w) as [input' w1]. by eapply IH.
Qed.

(** Over a list the loop always completes, and leaves the world alone. *)
Lemma form_batches_of_list self (items : list HistoricAgentRecord.t) cur bs w :
  ∃ cur' bs', form_batches self (of_list items) cur bs w = (Ok (cur', bs'), w).
Proof.
  revert cur bs. induction items as [|record items IH]; intros cur bs; simpl.
  - by eexists _, _.
  - destruct (filter_agents self record); simpl; [|by apply IH].
    destruct (len (cur ++ [record]) >=? batch_size self).
    + destruct (len (bs ++ [cur ++ [record]]) >=? max_batches self);
        [by eexists _, _|by apply IH].
    + destruct (len bs >=? max_batches self); [by eexists _, _|by apply IH].
Qed.

(** Once the cap is reached, whatever would follow in the input plays
    no part. *)
Lemma form_batches_stops self (pre : list HistoricAgentRecord.t) rest cur bs w cur' bs' w' :
  len bs < max_batches self →
  form_batches self (of_list pre) cur bs w = (Ok (cur', bs'), w') →
  max_batches self ≤ len bs' →
  form_batches self (yield_all pre rest) cur bs w = (Ok (cur', bs'), w').
Proof.
  revert cur bs. induction pre as [|record pre IH]; intros cur bs Hlt Hrun Hcap;
    simpl in Hrun.
  - unfold ret in Hrun. simplify_eq. lia.
  - simpl. destruct (filter_agents self record); simpl in *; [|by apply IH].
    destruct (len (cur ++ [record]) >=? batch_size self).
    + destruct (len (bs ++ [cur ++ [record]]) >=? max_batches self) eqn:Hge;
        [done|]. apply geb_false in Hge. by apply IH.
    + destruct (len bs >=? max_batches self) eqn:Hge; [done|]. by apply IH.
Qed.

(** A running batch that is left over is undersized: it was not sealed
    when its last record was appended. *)
Lemma form_batches_undersized self input cur bs w cur' bs' w' :
  cur = [] ∨ len cur < batch_size self →
  form_batches self input cur bs w = (Ok (cur', bs'), w') →
  cur' = [] ∨ len cur' < batch_size self.
Proof.
  revert cur bs w.
  induction input as [|e|record rest IH|step IH] using Gen_ind;
    intros cur bs w Hcur Hrun; simpl in Hrun.
  - unfold ret in Hrun. by simplify_eq.
  - unfold raise in Hrun. simplify_eq.
  - destruct (filter_agents self record); simpl in Hrun; [|by eapply IH].
    destruct (len (cur ++ [record]) >=? batch_size self) eqn:Hfull.
    + destruct (len (bs ++ [cur ++ [record]]) >=? max_batches self).
      * unfold ret in Hrun. simplify_eq. by left.
      * eapply IH; [|exact Hrun]. by left.
    + apply geb_false in Hfull.
      destruct (len bs >=? max_batches self).
      * unfold ret in Hrun. simplify_eq. by right.
      * eapply IH; [|exact Hrun]. by right.
  - specialize (IH w). destruct (step w) as [input' w1]. by eapply IH.
Qed.

(** [prepare] allocates the merged metadata, then forms the batches. *)
Lemma prepare_eq self input metadata w :
  prepare self input metadata w
  = let w1 := mkWorld (db w)
                (heap w ++ [run_metadata self (default ∅ (heap w !! metadata))])
                (stdout w) (calls w) (env w) in
    match form_batches self input [] [] w1 with
    | (Ok state, w') => (Ok (length (heap w), seal_trailing state.1 state.2), w')
    | (Raise e, w') => (Raise e, w')
    end.
Proof.
  unfold prepare, bind, get_dict, new_dict, ret. simpl.
  by destruct (form_batches _ _ _ _ _) as [[[cur bs]|e] w'].
Qed.

End BatchFormation.

Section BatchFormationClaims.
  Context `{Runtime}.
  Import CookieFunBatchedAnalysisPipeline.

(** Claim C2, as amended.  Let a run with a cap [max_batches] of at least
    one have formed its batch list: its loop over the input, started with
    no running batch and no sealed batch in the world in which the merged
    metadata dict has been created, has ended with the running batch
    [current_batch] and the sealed batches [batches], and the trailing
    batch has been sealed.  Then the loop has sealed at most [max_batches]
    batches, and the batch list of the run holds at most [max_batches]
    batches.  When no running batch is left over, the batch list is
    [batches].  When a non-empty running batch is left over, fewer than
    [max_batches] batches had been sealed, the batch list is [batches]
    followed by [current_batch] as its last batch, and [current_batch] is
    undersized: it holds fewer than [batch_size] records. *)
Theorem sealed_batches_within_max_batches
    (self : t) (input : Gen HistoricAgentRecord.t) (metadata : loc) (w : World)
    (p : loc * list (list HistoricAgentRecord.t)) (w' : World) :
  1 ≤ max_batches self →
  prepare self input metadata w = (Ok p, w') →
  ∃ current_batch batches,
    form_batches self input [] []
      (mkWorld (db w) (heap w ++ [run_metadata self (default ∅ (heap w !! metadata))])
         (stdout w) (calls w) (env w))
    = (Ok (current_batch, batches), w')
    ∧ len batches ≤ max_batches self
    ∧ len p.2 ≤ max_batches self
    ∧ (current_batch = [] → p.2 = batches)
    ∧ (current_batch ≠ [] →
       len batches < max_batches self
       ∧ p.2 = batches ++ [current_batch]
       ∧ last p.2 = Some current_batch
       ∧ 1 ≤ len current_batch < batch_size self).
Proof.
  intros Hcap Hrun. rewrite prepare_eq in Hrun. cbv zeta in Hrun.
  destruct (form_batches _ _ _ _ _) as [[[cur bs]|e] w1] eqn:Hform; simplify_eq.
  exists cur, bs. split; [done|]. simpl.
  apply form_batches_cap in Hform as Hend; [|unfold len; simpl; lia].
  apply form_batches_undersized in Hform as Hsize; [|by left].
  split; [destruct Hend as [Hlt|[-> Heq]]; lia|].
  split.
  { destruct Hend as [Hlt|[-> Heq]]; simpl; [|lia].
    destruct cur; simpl; [lia|]. rewrite len_snoc. lia. }
  split; [by intros ->|].
  intros Hne. destruct Hend as [Hlt|[-> Heq]]; [|done].
  destruct cur as [|record cur]; [done|]. simpl.
  split; [done|]. split; [done|]. split; [by rewrite last_snoc|].
  destruct Hsize as [?|Hsize]; [done|]. unfold len in *. simpl in *. lia.
Qed.

(** Claim C7, as amended.  With batch size 2, cap 1 and a filter that
    accepts every record, the input [A, B, C, D] forms exactly the batch
    list [[A, B]], and the loop has then left the input after [B]: whatever
    generator stands behind [B], be it [C, D], a failure or an action on the
    world, the result is the same and the world untouched.  In general, for
    a cap of at least one, once consuming a prefix of the input has sealed
    [max_batches] batches, nothing behind that prefix is consumed. *)
Theorem input_consumption_stops_at_max_batches :
  (∀ analysis_type agent identify_top_agents ignore_cached concurrency extra_metadata
     (A B C D : HistoricAgentRecord.t),
     let self := mk analysis_type agent identify_top_agents (λ _, true) ignore_cached
                   2 1 concurrency extra_metadata in
     (∀ w, form_batches self (of_list [A; B; C; D]) [] [] w = (Ok ([], [[A; B]]), w))
     ∧ seal_trailing [] [[A; B]] = [[A; B]]
     ∧ (∀ rest w, form_batches self (Yield A (Yield B rest)) [] [] w
                  = (Ok ([], [[A; B]]), w)))
  ∧ (∀ (self : t) (pre : list HistoricAgentRecord.t) (rest : Gen HistoricAgentRecord.t)
       w current_batch batches w',
       1 ≤ max_batches self →
       form_batches self (of_list pre) [] [] w = (Ok (current_batch, batches), w') →
       max_batches self ≤ len batches →
       form_batches self (yield_all pre rest) [] [] w = (Ok (current_batch, batches), w')).
Proof.
  split.
  - intros. repeat split.
  - intros self pre rest w cur bs w' Hcap Hrun Hfull.
    apply form_batches_stops; [unfold len; simpl; lia|done..].
Qed.

End BatchFormationClaims.

(** The partial trailing batch of the specification: batch size 3, cap 5
    and four records give the batches [[1,2,3],[4]]. *)
Lemma sealed_batches_within_max_batches_witness :
  let self := Scenario.batched 3 5 1 in
  let input := of_list (Scenario.record <$> [1; 2; 3; 4]) in
  ∃ p w' current_batch batches,
    Batched.prepare self input 0%nat Scenario.world = (Ok p, w')
    ∧ current_batch = Scenario.record <$> [4]
    ∧ batches = [Scenario.record <$> [1; 2; 3]]
    ∧ p.2 = [Scenario.record <$> [1; 2; 3]; Scenario.record <$> [4]]
    ∧ len p.2 ≤ Batched.max_batches self
    ∧ len batches < Batched.max_batches self
    ∧ p.2 = batches ++ [current_batch]
    ∧ 1 ≤ len current_batch < Batched.batch_size self.
Proof.
  intros self input.
  destruct (Batched.prepare self input 0%nat Scenario.world) as [[p|e] w'] eqn:Hrun;
    [|by vm_compute in Hrun].
  destruct (sealed_batches_within_max_batches self input 0%nat Scenario.world p w')
    as (current_batch & batches & Hform & _ & Hcount & _ & Hpartial);
    [vm_compute; discriminate|exact Hrun|].
  assert (current_batch = Scenario.record <$> [4]
          ∧ batches = [Scenario.record <$> [1; 2; 3]]) as [Hcur Hbs].
  { vm_compute in Hform. by simplify_eq. }
  destruct Hpartial as (Hlt & Hlist & _ & Hsize); [by rewrite Hcur|].
  exists p, w', current_batch, batches.
  split; [done|]. split; [done|]. split; [done|].
  split; [by rewrite Hlist, Hcur, Hbs|]. done.
Defined.

(** Claim C2, as stated, fails for a cap below one: with [max_batches = 0]
    (and just as well [-1]) and [batch_size = 2] the loop takes the first
    record before it looks at the cap, and the trailing batch is sealed, so
    one batch is formed. *)
Lemma sealed_batches_exceed_zero_max_batches :
  (Batched.prepare (Scenario.batched 2 0 1) (of_list [Scenario.record 1]) 0%nat
     Scenario.world).1
  = Ok (1%nat, [[Scenario.record 1]])
  ∧ ¬ len [[Scenario.record 1]] ≤ Batched.max_batches (Scenario.batched 2 0 1)
  ∧ (Batched.prepare (Scenario.batched 2 (-1) 1) (of_list [Scenario.record 1]) 0%nat
       Scenario.world).1
    = Ok (1%nat, [[Scenario.record 1]])
  ∧ ¬ len [[Scenario.record 1]] ≤ Batched.max_batches (Scenario.batched 2 (-1) 1).
Proof. repeat split; try reflexivity; vm_compute; by intros []. Qed.

(** The cap is reached after [1, 2]; a failing generator behind them is
    never asked. *)
Lemma input_consumption_stops_at_max_batches_witness :
  let self := Scenario.batched 2 1 1 in
  let pre := Scenario.record <$> [1; 2] in
  Batched.form_batches self (yield_all pre (Throw (ValueError "never asked"))) [] []
    Scenario.world
  = (Ok ([], [pre]), Scenario.world).
Proof.
  intros self pre.
  apply (proj2 input_consumption_stops_at_max_batches self pre _ Scenario.world [] [pre]
           Scenario.world).
  - vm_compute. discriminate.
  - reflexivity.
  - vm_compute. discriminate.
Defined.

(** Claim C7, as stated, fails for a cap below one.  With [max_batches = 0]
    the cap is met before anything is consumed: the empty prefix of the
    input leaves no running batch and no sealed batch, and [0] batches are
    sealed.  Yet the loop consumes what stands behind that prefix up to the
    first accepted record, which it takes into the running batch; and an
    input that acts on the world when it is asked has acted. *)
Lemma input_consumed_beyond_zero_max_batches :
  let self := Scenario.batched 2 0 1 in
  let behind := of_list (Scenario.record <$> [1; 2]) in
  Batched.form_batches self (of_list []) [] [] Scenario.world = (Ok ([], []), Scenario.world)
  ∧ Batched.max_batches self ≤ len ([] : list (list HistoricAgentRecord.t))
  ∧ Batched.form_batches self (yield_all [] behind) [] [] Scenario.world
    = (Ok ([Scenario.record 1], []), Scenario.world)
  ∧ Batched.form_batches self (yield_all [] behind) [] [] Scenario.world
    ≠ (Ok ([], []), Scenario.world)
  ∧ stdout
      (Batched.form_batches self (yield_all [] (lift (print "asked") (λ _, behind)))
         [] [] Scenario.world).2
    = ["asked"].
Proof.
  intros self behind. split; [reflexivity|]. split; [vm_compute; discriminate|].
  split; [reflexivity|]. split; [vm_compute; discriminate|]. reflexivity.
Qed.

(** ** The work unit of a batch *)

Section WorkUnit.
Context `{Runtime}.
Import CookieFunBatchedAnalysisPipeline.

Implicit Types (self : t) (batch : list HistoricAgentRecord.t) (metadata : loc).

Lemma first_desc_None rows : BatchAnalysisRecord.first_desc rows = None → rows = [].
Proof. by destruct rows. Qed.

Lemma latest_elem best rows : BatchAnalysisRecord.latest best rows ∈ best :: rows.
Proof.
  revert best. induction rows as [|r rows IH]; intros best; simpl.
  - apply list_elem_of_here.
  - specialize (IH (if BatchAnalysisRecord.newer (BatchAnalysisRecord.created_at r)
                          (BatchAnalysisRecord.created_at best) then r else best)).
    apply elem_of_cons in IH as [->|IH].
    + destruct (BatchAnalysisRecord.newer _ _); set_solver.
    + set_solver.
Qed.

(** A query finds a row of the table that is stored under the key, and
    finds one whenever there is one. *)
Lemma query_Some rows analysis_type0 run_id input_agent_ids0 record :
  BatchAnalysisRecord.query rows analysis_type0 run_id input_agent_ids0 = Some record →
  record ∈ rows
  ∧ BatchAnalysisRecord.matches analysis_type0 run_id input_agent_ids0 record = true.
Proof.
  unfold BatchAnalysisRecord.query, BatchAnalysisRecord.first_desc. intros Hquery.
  destruct (List.filter _ rows) as [|r rows'] eqn:Hfilter; simplify_eq.
  pose proof (latest_elem r rows') as Hin. rewrite <-Hfilter in Hin.
  apply list_elem_of_In, List.filter_In in Hin as [Hin Hmatch].
  by apply list_elem_of_In in Hin.
Qed.

Lemma query_is_Some rows analysis_type0 run_id input_agent_ids0 row :
  row ∈ rows →
  BatchAnalysisRecord.matches analysis_type0 run_id input_agent_ids0 row = true →
  is_Some (BatchAnalysisRecord.query rows analysis_type0 run_id input_agent_ids0).
Proof.
  intros Hin Hmatch. unfold BatchAnalysisRecord.query, BatchAnalysisRecord.first_desc.
  destruct (List.filter _ rows) as [|r rows'] eqn:Hfilter; [|done].
  assert (List.In row (List.filter
            (BatchAnalysisRecord.matches analysis_type0 run_id input_agent_ids0) rows))
    as Hrow by (apply List.filter_In; split; [by apply list_elem_of_In|done]).
  rewrite Hfilter in Hrow. destruct Hrow.
Qed.

(** A row written under a key that had no row is what a query of that key
    finds. *)
Lemma query_after_insert rows analysis_type0 run_id input_agent_ids0 row :
  BatchAnalysisRecord.query rows analysis_type0 run_id input_agent_ids0 = None →
  BatchAnalysisRecord.matches analysis_type0 run_id input_agent_ids0 row = true →
  BatchAnalysisRecord.query (rows ++ [row]) analysis_type0 run_id input_agent_ids0
  = Some row.
Proof.
  unfold BatchAnalysisRecord.query. intros Hnone Hrow.
  apply first_desc_None in Hnone.
  rewrite List.filter_app, Hnone. simpl. by rewrite Hrow.
Qed.

(** A cache hit: the row of the table is returned and the world is left as
    it was. *)
Lemma run_agent_hit self first rest metadata w record :
  ignore_cached self = false →
  BatchAnalysisRecord.query (db w) (analysis_type self)
    (HistoricAgentRecord.ingestion_run_id first)
    (BatchAnalysisRecord.serialize_agent_ids (HistoricAgentRecord.id <$> first :: rest))
  = Some record →
  _run_agent self (first :: rest) metadata w = (Ok record, w).
Proof.
  intros Hcache Hquery. unfold _run_agent, bind, db_query.
  by rewrite Hquery, Hcache.
Qed.

(** A cache miss with collaborators that answer: both are called once, and
    the new row is written and returned. *)
Lemma run_agent_miss self first rest metadata w text env1 top env2 :
  BatchAnalysisRecord.query (db w) (analysis_type self)
    (HistoricAgentRecord.ingestion_run_id first)
    (BatchAnalysisRecord.serialize_agent_ids (HistoricAgentRecord.id <$> first :: rest))
  = None →
  agent self (HistoricAgentRecord.data <$> first :: rest) (env w) = (Done text, env1) →
  identify_top_agents self (first :: rest) text env1 = (Done top, env2) →
  let row := BatchAnalysisRecord.mk
               (Some (BatchAnalysisRecord.next_id (db w)))
               (HistoricAgentRecord.ingestion_run_id first)
               (BatchAnalysisRecord.serialize_agent_ids
                  (HistoricAgentRecord.id <$> first :: rest))
               (Some (now env2))
               (analysis_type self) text top (default ∅ (heap w !! metadata)) in
  _run_agent self (first :: rest) metadata w
  = (Ok row,
     mkWorld (db w ++ [row]) (heap w) (stdout w)
       (calls w ++ [CallAgent (HistoricAgentRecord.data <$> first :: rest);
                    CallIdentifyTopAgents (first :: rest) text])
       env2).
Proof.
  intros Hquery Hagent Htop row.
  unfold _run_agent, bind, db_query. rewrite Hquery.
  unfold external at 1. rewrite Hagent.
  unfold external at 1. simpl. rewrite Htop.
  unfold get_dict, db_insert. simpl. by rewrite <-(assoc_L (++)).
Qed.

(** A work unit on a non-empty batch fails only by a collaborator. *)
Lemma run_agent_failure self first rest metadata w e w' :
  _run_agent self (first :: rest) metadata w = (Raise e, w') →
  ∃ code, e = CollaboratorFailure code.
Proof.
  unfold _run_agent, bind, db_query, external, get_dict, db_insert. simpl.
  intros Hrun.
  destruct (BatchAnalysisRecord.query _ _ _ _) as [record|],
    (ignore_cached self); try (unfold ret in Hrun; simplify_eq);
    destruct (agent self _ _) as [[text|code] env1]; simpl in Hrun;
    try (simplify_eq; by eexists);
    destruct (identify_top_agents self _ _ _) as [[top|code] env2]; simpl in Hrun;
    simplify_eq; by eexists.
Qed.

Lemma run_agent_empty self metadata w :
  _run_agent self [] metadata w = (Raise (ValueError "Batch is empty"), w).
Proof. done. Qed.

Lemma agent_calls_app cs1 cs2 :
  agent_calls (cs1 ++ cs2) = (agent_calls cs1 + agent_calls cs2)%nat.
Proof. unfold agent_calls. by rewrite List.filter_app, length_app. Qed.

Lemma identify_calls_app cs1 cs2 :
  identify_calls (cs1 ++ cs2) = (identify_calls cs1 + identify_calls cs2)%nat.
Proof. unfold identify_calls. by rewrite List.filter_app, length_app. Qed.

End WorkUnit.

Section CacheClaims.
  Context `{Runtime}.
  Import CookieFunBatchedAnalysisPipeline.

(** Claim C3.  With [ignore_cached] false: a work unit whose batch has a
    row in the table under its key (run id of the batch, analysis type,
    fingerprint of its ids) returns a row of the table stored under that
    key, the one that the query finds, and leaves the world as it was, so
    that neither collaborator is called.  Hence two work units in sequence
    on batches of the same run id and the same ids, started on a table
    without a row under that key and with collaborators that answer, call
    the [agent] exactly once in total (and [identify_top_agents] once), and
    both return the same row, primary key included. *)
Theorem cached_artifact_returned_without_analysis (self : t) :
  ignore_cached self = false →
  (∀ first rest metadata w row,
     row ∈ db w →
     BatchAnalysisRecord.matches (analysis_type self)
       (HistoricAgentRecord.ingestion_run_id first)
       (BatchAnalysisRecord.serialize_agent_ids (HistoricAgentRecord.id <$> first :: rest))
       row = true →
     ∃ record,
       _run_agent self (first :: rest) metadata w = (Ok record, w)
       ∧ record ∈ db w
       ∧ BatchAnalysisRecord.matches (analysis_type self)
           (HistoricAgentRecord.ingestion_run_id first)
           (BatchAnalysisRecord.serialize_agent_ids
              (HistoricAgentRecord.id <$> first :: rest))
           record = true
       ∧ BatchAnalysisRecord.query (db w) (analysis_type self)
           (HistoricAgentRecord.ingestion_run_id first)
           (BatchAnalysisRecord.serialize_agent_ids
              (HistoricAgentRecord.id <$> first :: rest))
         = Some record)
  ∧ (∀ first1 rest1 first2 rest2 metadata1 metadata2 w text env1 top env2,
       HistoricAgentRecord.ingestion_run_id first1
       = HistoricAgentRecord.ingestion_run_id first2 →
       HistoricAgentRecord.id <$> first1 :: rest1
       ≡ₚ HistoricAgentRecord.id <$> first2 :: rest2 →
       BatchAnalysisRecord.query (db w) (analysis_type self)
         (HistoricAgentRecord.ingestion_run_id first1)
         (BatchAnalysisRecord.serialize_agent_ids
            (HistoricAgentRecord.id <$> first1 :: rest1))
       = None →
       agent self (HistoricAgentRecord.data <$> first1 :: rest1) (env w)
       = (Done text, env1) →
       identify_top_agents self (first1 :: rest1) text env1 = (Done top, env2) →
       ∃ record w1,
         _run_agent self (first1 :: rest1) metadata1 w = (Ok record, w1)
         ∧ _run_agent self (first2 :: rest2) metadata2 w1 = (Ok record, w1)
         ∧ agent_calls (calls w1) = S (agent_calls (calls w))
         ∧ identify_calls (calls w1) = S (identify_calls (calls w))
         ∧ BatchAnalysisRecord.id record
           = Some (BatchAnalysisRecord.next_id (db w))).
Proof.
  intros Hcache. split.
  - intros first rest metadata w row Hin Hmatch.
    destruct (query_is_Some _ _ _ _ _ Hin Hmatch) as [record Hquery].
    exists record. split; [by apply run_agent_hit|].
    by destruct (query_Some _ _ _ _ _ Hquery).
  - intros first1 rest1 first2 rest2 metadata1 metadata2 w text env1 top env2
      Hrun_id Hids Hquery Hagent Htop.
    pose proof (run_agent_miss self first1 rest1 metadata1 w text env1 top env2
                  Hquery Hagent Htop) as Hfirst.
    simpl in Hfirst. eexists _, _. split; [exact Hfirst|].
    split; [|split; [|split]].
    + apply run_agent_hit; [done|].
      rewrite <-Hrun_id.
      rewrite <-(proj2 (serialize_agent_ids_Permutation _ _) Hids).
      apply query_after_insert; [exact Hquery|].
      unfold BatchAnalysisRecord.matches. simpl.
      by rewrite !bool_decide_eq_true_2.
    + simpl. rewrite agent_calls_app. unfold agent_calls at 2. simpl. lia.
    + simpl. rewrite identify_calls_app. unfold identify_calls at 2. simpl. lia.
    + done.
Qed.

End CacheClaims.

(** The ids [3,1,2] analysed on an empty table, then the ids [1,2,3] of the
    same run: one call of the agent, and the row with primary key 1 both
    times. *)
Lemma cached_artifact_returned_without_analysis_witness :
  let self := Scenario.batched 15 20 10 in
  ∃ record w1,
    Batched._run_agent self (Scenario.record <$> [3; 1; 2]) 0%nat Scenario.world
    = (Ok record, w1)
    ∧ Batched._run_agent self (Scenario.record <$> [1; 2; 3]) 0%nat w1 = (Ok record, w1)
    ∧ agent_calls (calls w1) = 1%nat
    ∧ BatchAnalysisRecord.id record = Some 1.
Proof.
  intros self.
  destruct (proj2 (cached_artifact_returned_without_analysis self eq_refl)
              (Scenario.record 3) (Scenario.record <$> [1; 2])
              (Scenario.record 1) (Scenario.record <$> [2; 3])
              0%nat 0%nat Scenario.world "analysis"
              (@mkEnv Scenario.runtime 101 1%nat) [3] (@mkEnv Scenario.runtime 101 1%nat))
    as (record & w1 & Hfirst & Hsecond & Hcalls & _ & Hid).
  - reflexivity.
  - apply (bool_decide_unpack _). vm_compute. exact I.
  - reflexivity.
  - reflexivity.
  - reflexivity.
  - exists record, w1. repeat split; [exact Hfirst|exact Hsecond|exact Hcalls|exact Hid].
Defined.

(** ** Waves *)

Section Waves.
Context `{Runtime}.
Import CookieFunBatchedAnalysisPipeline.

Implicit Types (self : t) (batches : list (list HistoricAgentRecord.t)) (metadata : loc).

Lemma drive_yield_all {A} (l : list A) (g : Gen A) w :
  drive (yield_all l g) w = let '(os, r, w') := drive g w in (l ++ os, r, w').
Proof.
  induction l as [|x l IH].
  - simpl. by destruct (drive g w) as [[os r] w'].
  - change (yield_all (x :: l) g) with (Yield x (yield_all l g)).
    cbn [drive]. rewrite IH. by destruct (drive g w) as [[os r] w'].
Qed.

Lemma gather_cons {A} (task : M A) (tasks : list (M A)) w :
  gather (task :: tasks) w
  = match task w with
    | (Ok r, w1) =>
        match gather tasks w1 with
        | (Ok rs, w2) => (Ok (r :: rs), w2)
        | (Raise e, w2) => (Raise e, w2)
        end
    | (Raise e, w1) => (Raise e, w1)
    end.
Proof.
  simpl. unfold bind. destruct (task w) as [[r|e] w1]; [|done].
  by destruct (gather tasks w1) as [[rs|e] w2].
Qed.


(** A group of work units over non-empty batches fails only by a
    collaborator. *)
Lemma gather_run_agent_failure self metadata (chunk : list (list HistoricAgentRecord.t))
    w e w' :
  Forall (λ b, b ≠ []) chunk →
  gather ((λ batch, _run_agent self batch metadata) <$> chunk) w = (Raise e, w') →
  ∃ code, e = CollaboratorFailure code.
Proof.
  intros Hne. revert w. induction Hne as [|batch chunk Hbatch Hne IH]; intros w Hrun.
  - simpl in Hrun. unfold ret in Hrun. simplify_eq.
  - rewrite fmap_cons, gather_cons in Hrun.
    destruct (_run_agent self batch metadata w) as [[r|e0] w1] eqn:Htask.
    + destruct (gather _ w1) as [[rs|e1] w2] eqn:Hrest; simplify_eq. by eapply IH.
    + simplify_eq. destruct batch as [|first rest]; [done|].
      by eapply run_agent_failure.
Qed.

Lemma wave_eq self batches metadata index w :
  wave self batches metadata index w
  = task_group ((λ batch, _run_agent self batch metadata)
                  <$> slice batches index (Z.to_nat (concurrency self)))
      (print (wave_banner batches index) w).2.
Proof. done. Qed.

(** A wave over non-empty batches never fails with the empty-batch error. *)
Lemma wave_failure self batches metadata index w e w' :
  Forall (λ b, b ≠ []) batches →
  wave self batches metadata index w = (Raise e, w') →
  is_empty_batch_error e = false.
Proof.
  intros Hne. rewrite wave_eq. unfold task_group.
  destruct (gather _ _) as [[rs|e0] w1] eqn:Hrun; intros ?; simplify_eq.
  apply gather_run_agent_failure in Hrun as [code ->]; [done|].
  by apply Forall_take, Forall_drop.
Qed.

Lemma drive_run_waves_cons self batches metadata index indices w :
  drive (run_waves self batches metadata (index :: indices)) w
  = match wave self batches metadata index w with
    | (Ok tasks, w1) =>
        let '(os, r, w2) := drive (run_waves self batches metadata indices) w1 in
        (as_completed tasks ++ os, r, w2)
    | (Raise e, w1) => ([], Some e, w1)
    end.
Proof.
  change (run_waves self batches metadata (index :: indices))
    with (lift (wave self batches metadata index)
            (λ tasks, yield_all (as_completed tasks)
                        (run_waves self batches metadata indices))).
  rewrite drive_lift.
  destruct (wave self batches metadata index w) as [[tasks|e] w1]; [|done].
  by rewrite drive_yield_all.
Qed.


(** Over non-empty batches the loop of waves never ends in the empty-batch
    error. *)
Lemma run_waves_failure self batches metadata indices w os e w' :
  Forall (λ b, b ≠ []) batches →
  drive (run_waves self batches metadata indices) w = (os, Some e, w') →
  is_empty_batch_error e = false.
Proof.
  intros Hne. revert w os. induction indices as [|index indices IH]; intros w os Hrun.
  - simpl in Hrun. simplify_eq.
  - rewrite drive_run_waves_cons in Hrun.
    destruct (wave self batches metadata index w) as [[tasks|e0] w1] eqn:Hwave.
    + destruct (drive (run_waves self batches metadata indices) w1)
        as [[os1 r1] w2] eqn:Hrest.
      simplify_eq. by eapply IH.
    + simplify_eq. by eapply wave_failure.
Qed.

Lemma run_batches_failure self batches metadata w os e w' :
  Forall (λ b, b ≠ []) batches →
  drive (_run_batches self batches metadata) w = (os, Some e, w') →
  is_empty_batch_error e = false.
Proof.
  intros Hne. unfold _run_batches.
  destruct (concurrency self =? 0); [simpl; intros; by simplify_eq|].
  destruct (concurrency self <? 0); [simpl; intros; by simplify_eq|].
  by apply run_waves_failure.
Qed.

Lemma drive_run self (input : Gen HistoricAgentRecord.t) metadata w :
  drive (run self input metadata) w
  = match prepare self input metadata w with
    | (Ok p, w1) => drive (_run_batches self p.2 p.1) w1
    | (Raise e, w1) => ([], Some e, w1)
    end.
Proof.
  unfold run. rewrite drive_lift.
  destruct (prepare self input metadata w) as [[p|e] w1]; [|done].
  by rewrite async_for_reyield.
Qed.

End Waves.

Section WaveClaims.
  Context `{Runtime}.
  Import CookieFunBatchedAnalysisPipeline.


(** Claim C8.  The work unit raises the empty-batch [ValueError] exactly
    when its batch is empty; every batch that [run] forms is non-empty; so a
    run never ends in the empty-batch error of its own: over a list of
    records it never ends in that error, and over any generator it does so
    only when that generator itself raised it. *)
Theorem empty_batch_error_unreachable (self : t) :
  (∀ batch metadata w,
     (∃ w', _run_agent self batch metadata w = (Raise (ValueError "Batch is empty"), w'))
     ↔ batch = [])
  ∧ (∀ input metadata w p w',
       prepare self input metadata w = (Ok p, w') → Forall (λ b, b ≠ []) p.2)
  ∧ (∀ (items : list HistoricAgentRecord.t) metadata w os e w',
       drive (run self (of_list items) metadata) w = (os, Some e, w') →
       is_empty_batch_error e = false)
  ∧ (∀ input metadata w os e w',
       drive (run self input metadata) w = (os, Some e, w') →
       is_empty_batch_error e = true →
       ∃ w0 os0, drive input w0 = (os0, Some e, w')).
Proof.
  assert (∀ input metadata w p w',
            prepare self input metadata w = (Ok p, w') → Forall (λ b, b ≠ []) p.2)
    as Hformed.
  { intros input metadata w p w' Hrun. rewrite prepare_eq in Hrun. simpl in Hrun.
    destruct (form_batches _ _ _ _ _) as [[[cur bs]|e] w1] eqn:Hform; simplify_eq.
    simpl. apply seal_trailing_nonempty.
    by eapply form_batches_nonempty; [|exact Hform]. }
  split; [|split; [exact Hformed|split]].
  - intros batch metadata w. split.
    + intros [w' Hrun]. destruct batch as [|first rest]; [done|].
      apply run_agent_failure in Hrun as [code Hcode]. discriminate.
    + intros ->. by exists w.
  - intros items metadata w os e w' Hrun. rewrite drive_run in Hrun.
    destruct (prepare self (of_list items) metadata w) as [[p|e0] w1] eqn:Hprep.
    + eapply run_batches_failure; [|exact Hrun]. by eapply Hformed.
    + rewrite prepare_eq in Hprep. simpl in Hprep.
      destruct (form_batches_of_list self items [] []
                  (mkWorld (db w)
                     (heap w ++ [run_metadata self (default ∅ (heap w !! metadata))])
                     (stdout w) (calls w) (env w))) as (cur & bs & Hform).
      rewrite Hform in Hprep. simplify_eq.
  - intros input metadata w os e w' Hrun Hempty. rewrite drive_run in Hrun.
    destruct (prepare self input metadata w) as [[p|e0] w1] eqn:Hprep.
    + apply run_batches_failure in Hrun; [congruence|]. by eapply Hformed.
    + simplify_eq. rewrite prepare_eq in Hprep. simpl in Hprep.
      destruct (form_batches _ _ _ _ _) as [[[cur bs]|e0] w1] eqn:Hform; simplify_eq.
      apply form_batches_raise in Hform as [os0 Hinput]. by eexists _, _.
Qed.

End WaveClaims.


(** A run with cap [max_batches = 0] over one record forms one batch of one
    record, and the work unit answers for it. *)
Lemma empty_batch_error_unreachable_witness :
  let self := Scenario.batched 2 0 1 in
  ∃ p w', Batched.prepare self (of_list [Scenario.record 1]) 0%nat Scenario.world = (Ok p, w')
          ∧ Forall (λ b, b ≠ []) p.2.
Proof.
  intros self.
  destruct (Batched.prepare self (of_list [Scenario.record 1]) 0%nat Scenario.world)
    as [[p|e] w'] eqn:Hrun; [|by vm_compute in Hrun].
  exists p, w'. split; [done|].
  exact (proj1 (proj2 (empty_batch_error_unreachable self)) _ _ _ _ _ Hrun).
Defined.

(** ** The recursion stage *)

Section RecursionFacts.
Context `{Runtime} {I O : Type}.
Import RecursionPipeline.

Implicit Types (self : @t _ I O) (input : Gen I) (metadata : loc) (depth : Z).

Lemma length_app_str (a b : string) :
  String.length (a +:+ b) = (String.length a + String.length b)%nat.
Proof.
  induction a as [|c a IH]; [done|].
  change (String c a +:+ b) with (String c (a +:+ b)). simpl. by rewrite IH.
Qed.

Lemma app_cancel_r (a b r : string) : a +:+ r = b +:+ r → a = b.
Proof.
  revert b. induction a as [|c a IH]; intros [|d b] Heq.
  - done.
  - apply (f_equal String.length) in Heq. rewrite !length_app_str in Heq.
    simpl in Heq. lia.
  - apply (f_equal String.length) in Heq. rewrite !length_app_str in Heq.
    simpl in Heq. lia.
  - change (String c (a +:+ r) = String d (b +:+ r)) in Heq.
    injection Heq as -> Heq. f_equal. by apply IH.
Qed.

(** The depth error names the number [depth] exactly when [depth] is
    [max_depth]. *)
Lemma max_depth_error_names self depth :
  max_depth_error self
  = ValueError ("Max depth of " +:+ str depth +:+ " reached while recursing "
                +:+ Pipeline.cls_name (pipeline self))
  ↔ depth = max_depth self.
Proof.
  split; [|by intros ->].
  unfold max_depth_error. intros [= Heq].
  apply (inj (String.app _)) in Heq. apply app_cancel_r in Heq.
  symmetry. by apply str_inj.
Qed.

(** At or beyond the maximal depth the guard fires. *)
Lemma _run_guard self input metadata depth :
  max_depth self ≤ depth →
  _run self input metadata depth = Throw (max_depth_error self).
Proof.
  intros Hdepth. unfold _run.
  by replace (Z.to_nat (max_depth self - depth)) with 0%nat by lia.
Qed.

(** Below the maximal depth [_run] is its body, recursing at [depth + 1]. *)
Lemma _run_unfold self input metadata depth :
  depth < max_depth self →
  _run self input metadata depth
  = _run_body self (λ sub_input metadata', _run self sub_input metadata' (depth + 1))
      input metadata depth.
Proof.
  intros Hdepth. unfold _run.
  replace (Z.to_nat (max_depth self - depth))
    with (S (Z.to_nat (max_depth self - (depth + 1)))) by lia.
  done.
Qed.

(** Driving one level of [_run]: the entry, the inner pipeline, the stop
    decision and the recursive call follow each other in the world. *)
Lemma drive_run_body self recurse input metadata depth w :
  drive (_run_body self recurse input metadata depth) w
  = match enter self input metadata depth w with
    | (Raise e, w1) => ([], Some e, w1)
    | (Ok p, w1) =>
        let '(os, r, w2) := drive (Pipeline.run (pipeline self) (of_list p.1) p.2) w1 in
        match r with
        | Some e => ((λ item, Pair (Plain item) p.1) <$> os, Some e, w2)
        | None =>
            if stopper self os then ((λ item, Pair (Plain item) p.1) <$> os, None, w2)
            else
              let '(os', r', w3) := drive (recurse (of_list (mapper self os)) p.2) w2 in
              (((λ item, Pair (Plain item) p.1) <$> os)
               ++ ((λ item, Pair item (mapper self os)) <$> os'), r', w3)
        end
    end.
Proof.
  unfold _run_body. rewrite drive_lift.
  destruct (enter self input metadata depth w) as [[p|e] w1]; [|done].
  rewrite drive_async_for.
  destruct (drive (Pipeline.run (pipeline self) (of_list p.1) p.2) w1)
    as [[os [e|]] w2]; [done|].
  simpl. destruct (stopper self os); simpl; [by rewrite app_nil_r|].
  rewrite drive_async_for.
  destruct (drive (recurse (of_list (mapper self os)) p.2) w2) as [[os' [e|]] w3];
    [done|].
  simpl. by rewrite app_nil_r.
Qed.

End RecursionFacts.

Section RecursionClaims.
  Context `{Runtime} {I O : Type}.
  Import RecursionPipeline.

(** Claim C6, as amended.  An invocation of [_run] at a depth [depth >=
    max_depth] is the generator that raises the depth error and nothing
    else: whatever the input generator and the metadata reference are,
    nothing is pulled from the input, no dict is created, nothing is
    printed, the inner pipeline is not run, and the world is left as it
    was.  The error reports [max_depth], not the depth of the invocation: it
    names the depth exactly when the depth is [max_depth].  An invocation
    raises at once exactly when [depth >= max_depth]; below [max_depth] it
    does the work of its depth and recurses at [depth + 1], so that a
    recursion started below [max_depth] meets the guard at the depth
    [max_depth] and nowhere else.  So with [max_depth = 2] the invocation at
    depth 0 is two levels of work around a bare raise; and when the stop
    predicate never fires and the work of depth 0 and of depth 1 goes
    through, the run yields the elements of these two depths and ends with
    the depth error, which reports 2, in the very world that the inner
    pipeline of depth 1 left: nothing was done at depth 2. *)
Theorem depth_guard_fires_before_any_work (self : @t _ I O) :
  (∀ input metadata depth,
     max_depth self ≤ depth →
     _run self input metadata depth = Throw (max_depth_error self)
     ∧ ∀ w, drive (_run self input metadata depth) w = ([], Some (max_depth_error self), w))
  ∧ (∀ depth,
       max_depth_error self
       = ValueError ("Max depth of " +:+ str depth +:+ " reached while recursing "
                     +:+ Pipeline.cls_name (pipeline self))
       ↔ depth = max_depth self)
  ∧ (∀ input metadata depth,
       _run self input metadata depth = Throw (max_depth_error self)
       ↔ max_depth self ≤ depth)
  ∧ (∀ input metadata depth,
       depth < max_depth self →
       _run self input metadata depth
       = _run_body self (λ sub_input metadata', _run self sub_input metadata' (depth + 1))
           input metadata depth)
  ∧ (max_depth self = 2 →
     ∀ input metadata,
       _run self input metadata 0
       = _run_body self
           (λ input1 metadata1,
              _run_body self (λ input2 metadata2, Throw (max_depth_error self))
                input1 metadata1 1)
           input metadata 0)
  ∧ (max_depth self = 2 →
     (∀ results, stopper self results = false) →
     ∀ input metadata w p0 w0 os0 w0' p1 w1 os1 w1',
       enter self input metadata 0 w = (Ok p0, w0) →
       drive (Pipeline.run (pipeline self) (of_list p0.1) p0.2) w0 = (os0, None, w0') →
       enter self (of_list (mapper self os0)) p0.2 1 w0' = (Ok p1, w1) →
       drive (Pipeline.run (pipeline self) (of_list p1.1) p1.2) w1 = (os1, None, w1') →
       drive (run self input metadata) w
       = (((λ item, Pair (Plain item) p0.1) <$> os0)
          ++ ((λ item, Pair item (mapper self os0))
                <$> ((λ item, Pair (Plain item) p1.1) <$> os1)),
          Some (ValueError ("Max depth of " +:+ str 2 +:+ " reached while recursing "
                            +:+ Pipeline.cls_name (pipeline self))),
          w1')).
Proof.
  split; [|split; [|split; [|split; [|split]]]].
  - intros input metadata depth Hdepth.
    rewrite (_run_guard self input metadata depth Hdepth). by split.
  - apply max_depth_error_names.
  - intros input metadata depth. split; [|apply _run_guard].
    intros Hthrow.
    destruct (decide (depth < max_depth self)) as [Hlt|Hge]; [|lia].
    rewrite (_run_unfold self input metadata depth Hlt) in Hthrow. discriminate.
  - apply _run_unfold.
  - intros Hmax input metadata.
    rewrite _run_unfold by lia. f_equal.
    apply functional_extensionality. intros input1.
    apply functional_extensionality. intros metadata1.
    rewrite _run_unfold by lia. f_equal.
    apply functional_extensionality. intros input2.
    apply functional_extensionality. intros metadata2.
    apply _run_guard. lia.
  - intros Hmax Hstop input metadata w p0 w0 os0 w0' p1 w1 os1 w1'
      Henter0 Hinner0 Henter1 Hinner1.
    rewrite <-(proj2 (max_depth_error_names self 2) (eq_sym Hmax)).
    unfold run. rewrite async_for_reyield.
    rewrite _run_unfold by lia.
    rewrite drive_run_body, Henter0, Hinner0, Hstop.
    change (0 + 1) with 1.
    rewrite _run_unfold by lia.
    rewrite drive_run_body, Henter1, Hinner1, Hstop.
    rewrite _run_guard by lia. simpl. by rewrite app_nil_r.
Qed.

End RecursionClaims.

(** A recursion of maximal depth 2 over the echo stage, with a stop
    predicate that never fires: the invocation at depth 2 raises at once;
    the whole run prints the lines of depth 0 and of depth 1, creates their
    two dicts, yields their elements and ends in the depth error. *)
Lemma depth_guard_fires_before_any_work_witness :
  let self := Scenario.restless 2 in
  drive (Recursion._run self (Throw (ValueError "never asked")) 0%nat 2) Scenario.world
  = ([], Some (ValueError "Max depth of 2 reached while recursing Echo"), Scenario.world)
  ∧ ∃ os w',
      drive (Recursion.run self (of_list [7; 8]) 0%nat) Scenario.world
      = (os, Some (ValueError "Max depth of 2 reached while recursing Echo"), w')
      ∧ length os = 4%nat
      ∧ stdout w' = ["Running pipeline Echo at depth 0 on 2 items before filtering";
                     "Running pipeline Echo at depth 1 on 2 items before filtering"]
      ∧ length (heap w') = 3%nat.
Proof.
  intros self. split.
  - apply (proj1 (depth_guard_fires_before_any_work self)
             (Throw (ValueError "never asked")) 0%nat 2).
    vm_compute. discriminate.
  - eexists _, _. repeat split; vm_compute; reflexivity.
Defined.

(** Claim C6, as stated, fails where the depth is beyond [max_depth]: an
    invocation at depth 5 of a recursion of maximal depth 2 raises the error
    that reports 2, which is not the error that reports 5; and a run of
    maximal depth -1 raises at depth 0 the error that reports -1. *)
Lemma depth_error_reports_max_depth_not_depth :
  drive (Recursion._run (Scenario.restless 2) (of_list [7; 8]) 0%nat 5) Scenario.world
  = ([], Some (ValueError "Max depth of 2 reached while recursing Echo"), Scenario.world)
  ∧ ValueError "Max depth of 2 reached while recursing Echo"
    ≠ ValueError ("Max depth of " +:+ str 5 +:+ " reached while recursing Echo")
  ∧ drive (Recursion.run (Scenario.restless (-1)) (of_list [7; 8]) 0%nat) Scenario.world
    = ([], Some (ValueError "Max depth of -1 reached while recursing Echo"),
       Scenario.world)
  ∧ ValueError "Max depth of -1 reached while recursing Echo"
    ≠ ValueError ("Max depth of " +:+ str 0 +:+ " reached while recursing Echo").
Proof.
  split; [reflexivity|]. split; [vm_compute; discriminate|].
  split; [reflexivity|]. vm_compute. discriminate.
Qed.

(** Claim C1 fails on the code.  A recursion over the echo stage on the
    input [7, 8, 9], dropping the last result of a round and stopping once
    a round has at most one result, has the inputs [7, 8, 9] at depth 0,
    [7, 8] at depth 1 and [7] at depth 2.  Depth 0 yields its own results as
    flat pairs.  The pairs of depth 1 arrive wrapped once more,
    [((7, [7, 8]), [7, 8])], and the pair of depth 2 wrapped twice,
    [(((7, [7]), [7]), [7, 8])], with the input list of depth 1 as its
    outermost tag: these are not flat pairs of a result and the input list
    of its depth. *)
Theorem recursion_wraps_deeper_results_again :
  (drive (Recursion.run (Scenario.recursion 10) (of_list [7; 8; 9]) 0%nat)
     Scenario.world).1
  = ([Recursion.Pair (Recursion.Plain 7) [7; 8; 9];
      Recursion.Pair (Recursion.Plain 8) [7; 8; 9];
      Recursion.Pair (Recursion.Plain 9) [7; 8; 9];
      Recursion.Pair (Recursion.Pair (Recursion.Plain 7) [7; 8]) [7; 8];
      Recursion.Pair (Recursion.Pair (Recursion.Plain 8) [7; 8]) [7; 8];
      Recursion.Pair (Recursion.Pair (Recursion.Pair (Recursion.Plain 7) [7]) [7]) [7; 8]],
     None)
  ∧ is_flat_pair
      (Recursion.Pair (Recursion.Pair (Recursion.Plain 7) [7; 8]) [7; 8]
         : Recursion.elem Z Z) = false
  ∧ is_flat_pair
      (Recursion.Pair (Recursion.Pair (Recursion.Pair (Recursion.Plain 7) [7]) [7]) [7; 8]
         : Recursion.elem Z Z) = false.
Proof. repeat split; vm_compute; reflexivity. Qed.

(** ** What a run leaves untouched *)

Section FrameFacts.
Context `{Runtime} (P : World → Prop).

Lemma m_keeps_ret {A} (a : A) : m_keeps P (ret a).
Proof. by intros w Hw. Qed.

Lemma m_keeps_raise {A} (e : exn) : m_keeps P (raise e : M A).
Proof. by intros w Hw. Qed.

Lemma m_keeps_bind {A B} (m : M A) (k : A → M B) :
  m_keeps P m → (∀ a, m_keeps P (k a)) → m_keeps P (bind m k).
Proof.
  intros Hm Hk w Hw. unfold bind. specialize (Hm w Hw).
  destruct (m w) as [[a|e] w1]; simpl in *; [by apply Hk|done].
Qed.

Lemma keeps_of_list {A} (l : list A) : keeps P (of_list l).
Proof. induction l; simpl; by constructor. Qed.

Lemma keeps_yield_all {A} (l : list A) (rest : Gen A) :
  keeps P rest → keeps P (yield_all l rest).
Proof. intros Hrest. induction l; simpl; [done|by constructor]. Qed.

(** A generator that starts with an async computation keeps [P] if the
    computation does and what follows it does, for every result the
    computation can have from a world where [P] holds. *)
Lemma keeps_lift {A O} (m : M A) (k : A → Gen O) :
  m_keeps P m →
  (∀ w a w', P w → m w = (Ok a, w') → keeps P (k a)) →
  keeps P (lift m k).
Proof.
  intros Hm Hk. constructor; intros w Hw; specialize (Hm w Hw);
    destruct (m w) as [[a|e] w1] eqn:Hrun; simpl in *; try done.
  - by eapply Hk.
  - constructor.
Qed.

Lemma keeps_async_for {A B} (g : Gen A) (f : A → B) (acc : list A)
    (after : list A → Gen B) :
  keeps P g → (∀ results, keeps P (after results)) →
  keeps P (async_for g f acc after).
Proof.
  intros Hg Hafter. revert acc.
  induction Hg as [|e|o rest Hrest IH|step Hworld Hstep IH]; intros acc; simpl.
  - apply Hafter.
  - constructor.
  - constructor. apply IH.
  - constructor; intros w Hw.
    + specialize (Hworld w Hw). by destruct (step w).
    + specialize (IH w Hw acc). by destruct (step w).
Qed.


(** Driving a generator that keeps [P] leaves a world where [P] holds. *)
Lemma keeps_drive {O} (g : Gen O) w : keeps P g → P w → P (drive g w).2.
Proof.
  intros Hg. revert w.
  induction Hg as [|e|o rest Hrest IH|step Hworld Hstep IH]; intros w Hw; simpl.
  - done.
  - done.
  - specialize (IH w Hw). by destruct (drive rest w) as [[os r] w1].
  - specialize (Hworld w Hw). specialize (IH w Hw).
    destruct (step w) as [g' w1]. by apply IH.
Qed.

End FrameFacts.

Section MetadataFacts.
Context `{Runtime} (m : loc) (d : dict).

(** The primitives other than the creation of a dict do not touch the
    heap; the creation of a dict adds a new object behind the others. *)
Lemma print_keeps line : m_keeps (dict_at m d) (print line).
Proof. by intros w Hw. Qed.

Lemma get_dict_keeps l : m_keeps (dict_at m d) (get_dict l).
Proof. by intros w Hw. Qed.

Lemma db_query_keeps analysis_type run_id input_agent_ids :
  m_keeps (dict_at m d) (db_query analysis_type run_id input_agent_ids).
Proof. by intros w Hw. Qed.

Lemma db_insert_keeps record : m_keeps (dict_at m d) (db_insert record).
Proof. by intros w Hw. Qed.

Lemma external_keeps {A} c (f : Env → Outcome A * Env) : m_keeps (dict_at m d) (external c f).
Proof. intros w Hw. unfold external. by destruct (f (env w)) as [[a|code] env']. Qed.

Lemma new_dict_keeps d' : m_keeps (dict_at m d) (new_dict d').
Proof.
  intros w Hw. unfold dict_at in *. simpl. by apply lookup_app_l_Some.
Qed.

Lemma new_dict_fresh d' w :
  dict_at m d w → (new_dict d' w).1 = Ok (length (heap w)) ∧ length (heap w) ≠ m.
Proof.
  intros Hw. split; [done|]. apply lookup_lt_Some in Hw. lia.
Qed.

End MetadataFacts.

Section BatchedFrame.
Context `{Runtime} (m : loc) (d : dict).
Import CookieFunBatchedAnalysisPipeline.

Lemma form_batches_keeps (self : t) input cur bs :
  keeps (dict_at m d) input → m_keeps (dict_at m d) (form_batches self input cur bs).
Proof.
  intros Hinput. revert cur bs.
  induction Hinput as [|e|record rest Hrest IH|step Hworld Hstep IH];
    intros cur bs w Hw; simpl.
  - done.
  - done.
  - destruct (filter_agents self record); simpl; [|by apply IH].
    destruct (len (cur ++ [record]) >=? batch_size self).
    + destruct (len (bs ++ [cur ++ [record]]) >=? max_batches self); [done|by apply IH].
    + destruct (len bs >=? max_batches self); [done|by apply IH].
  - specialize (Hworld w Hw). specialize (IH w Hw cur bs).
    destruct (step w) as [input' w1]. by apply IH.
Qed.

Lemma prepare_keeps (self : t) input metadata :
  keeps (dict_at m d) input → m_keeps (dict_at m d) (prepare self input metadata).
Proof.
  intros Hinput. unfold prepare.
  apply m_keeps_bind; [apply get_dict_keeps|]. intros caller.
  apply m_keeps_bind; [apply new_dict_keeps|]. intros metadata'.
  apply m_keeps_bind; [by apply form_batches_keeps|]. intros state.
  apply m_keeps_ret.
Qed.

Lemma run_agent_keeps (self : t) batch metadata :
  m_keeps (dict_at m d) (_run_agent self batch metadata).
Proof.
  unfold _run_agent. destruct batch as [|first rest]; [apply m_keeps_raise|].
  apply m_keeps_bind; [apply db_query_keeps|]. intros record.
  assert (m_keeps (dict_at m d)
            (analysis <- external (CallAgent (HistoricAgentRecord.data <$> first :: rest))
                           (agent self (HistoricAgentRecord.data <$> first :: rest)) ;;
             top_agent_ids <- external (CallIdentifyTopAgents (first :: rest) analysis)
                                (identify_top_agents self (first :: rest) analysis) ;;
             meta <- get_dict metadata ;;
             db_insert (BatchAnalysisRecord.mk None
                          (HistoricAgentRecord.ingestion_run_id first)
                          (BatchAnalysisRecord.serialize_agent_ids
                             (HistoricAgentRecord.id <$> first :: rest))
                          None (analysis_type self) analysis top_agent_ids meta)))
    as Hmiss.
  { apply m_keeps_bind; [apply external_keeps|]. intros analysis.
    apply m_keeps_bind; [apply external_keeps|]. intros top_agent_ids.
    apply m_keeps_bind; [apply get_dict_keeps|]. intros meta.
    apply db_insert_keeps. }
  destruct record as [record|], (ignore_cached self); try exact Hmiss.
  apply m_keeps_ret.
Qed.

Lemma gather_keeps {A} (tasks : list (M A)) :
  Forall (m_keeps (dict_at m d)) tasks → m_keeps (dict_at m d) (gather tasks).
Proof.
  induction 1 as [|task tasks Htask Htasks IH]; simpl; [apply m_keeps_ret|].
  apply m_keeps_bind; [done|]. intros r.
  apply m_keeps_bind; [done|]. intros rs. apply m_keeps_ret.
Qed.

Lemma wave_keeps (self : t) batches metadata index :
  m_keeps (dict_at m d) (wave self batches metadata index).
Proof.
  unfold wave. apply m_keeps_bind; [apply print_keeps|]. intros _.
  intros w Hw. unfold task_group.
  assert (dict_at m d
            (gather ((λ batch, _run_agent self batch metadata)
                       <$> slice batches index (Z.to_nat (concurrency self))) w).2) as Hg.
  { apply gather_keeps; [|done]. apply Forall_fmap, Forall_forall.
    intros batch _. apply run_agent_keeps. }
  by destruct (gather _ w) as [[rs|e] w1].
Qed.

Lemma run_waves_keeps (self : t) batches metadata indices :
  keeps (dict_at m d) (run_waves self batches metadata indices).
Proof.
  induction indices as [|index indices IH]; simpl; [constructor|].
  apply keeps_lift; [apply wave_keeps|]. intros w tasks w' _ _.
  by apply keeps_yield_all.
Qed.

Lemma run_batches_keeps (self : t) batches metadata :
  keeps (dict_at m d) (_run_batches self batches metadata).
Proof.
  unfold _run_batches.
  destruct (concurrency self =? 0); [constructor|].
  destruct (concurrency self <? 0); [constructor|].
  apply run_waves_keeps.
Qed.

(** The batching stage keeps every dict object that its input keeps. *)
Lemma batched_run_keeps (self : t) input metadata :
  keeps (dict_at m d) input → keeps (dict_at m d) (run self input metadata).
Proof.
  intros Hinput. unfold run.
  apply keeps_lift; [by apply prepare_keeps|]. intros w p w' _ _.
  apply keeps_async_for; [apply run_batches_keeps|]. intros _. constructor.
Qed.

End BatchedFrame.

Section RecursionFrame.
Context `{Runtime} {I O : Type} (m : loc) (d : dict).
Import RecursionPipeline.

Implicit Types (self : @t _ I O).

Lemma materialize_of_list {A} (l acc : list A) w :
  materialize (of_list l) acc w = (Ok (acc ++ l), w).
Proof.
  revert acc. induction l as [|x l IH]; intros acc; simpl.
  - by rewrite app_nil_r.
  - rewrite IH. by rewrite <-(assoc_L (++)).
Qed.

Lemma enter_eq self input metadata depth w :
  enter self input metadata depth w
  = match materialize input [] w with
    | (Ok input_list, w1) =>
        (Ok (input_list, length (heap w1)),
         mkWorld (db w1)
           (heap w1 ++ [<["recursion_depth" := PyInt depth]> (default ∅ (heap w1 !! metadata))])
           (stdout w1 ++ ["Running pipeline " +:+ Pipeline.cls_name (pipeline self)
                          +:+ " at depth " +:+ str depth +:+ " on "
                          +:+ str (len input_list) +:+ " items before filtering"])
           (calls w1) (env w1))
    | (Raise e, w1) => (Raise e, w1)
    end.
Proof.
  unfold enter, bind. by destruct (materialize input [] w) as [[input_list|e] w1].
Qed.





End RecursionFrame.

Section MetadataClaims.
  Context `{Runtime} {I O : Type}.


End MetadataClaims.


(** ** The shape of what the recursion yields, in general *)

Section RecursionShape.
Context `{Runtime} {I O : Type}.
Import RecursionPipeline.

Implicit Types (self : @t _ I O).

(** Whatever [_run] yields is a tuple. *)
Lemma run_fuel_yields_tuples self fuel input metadata depth w :
  Forall (λ y, ∃ x l, y = Pair x l) (drive (_run_fuel fuel self input metadata depth) w).1.1.
Proof.
  revert input metadata depth w.
  induction fuel as [|fuel IH]; intros input metadata depth w; simpl _run_fuel.
  - simpl. constructor.
  - rewrite drive_run_body.
    destruct (enter self input metadata depth w) as [[p|e] w1]; [|by constructor].
    destruct (drive (Pipeline.run (pipeline self) (of_list p.1) p.2) w1)
      as [[os [e|]] w2]; simpl.
    + apply Forall_fmap, Forall_forall. intros item _. by eexists _, _.
    + destruct (stopper self os); simpl.
      * apply Forall_fmap, Forall_forall. intros item _. by eexists _, _.
      * destruct (drive (_run_fuel fuel self (of_list (mapper self os)) p.2 (depth + 1)) w2)
          as [[os' r'] w3]. simpl.
        apply Forall_app. split; apply Forall_fmap, Forall_forall;
          intros item _; by eexists _, _.
Qed.

(** The yields of an invocation of [_run] are the flat pairs of its own
    depth, followed by what the deeper invocation yields, each element
    wrapped once more: none of these is a flat pair. *)
Lemma deeper_results_are_never_flat self input metadata depth w :
  ∃ input_list own forwarded,
    (drive (_run self input metadata depth) w).1.1
    = ((λ item, Pair (Plain item) input_list) <$> own) ++ forwarded
    ∧ Forall (λ y, is_flat_pair y = false) forwarded.
Proof.
  unfold _run. destruct (Z.to_nat (max_depth self - depth)) as [|fuel]; simpl _run_fuel.
  { by exists [], [], []. }
  rewrite drive_run_body.
  destruct (enter self input metadata depth w) as [[p|e] w1]; [|by exists [], [], []].
  destruct (drive (Pipeline.run (pipeline self) (of_list p.1) p.2) w1)
    as [[os [e|]] w2]; simpl.
  { exists p.1, os, []. by rewrite app_nil_r. }
  destruct (stopper self os); simpl.
  { exists p.1, os, []. by rewrite app_nil_r. }
  pose proof (run_fuel_yields_tuples self fuel (of_list (mapper self os)) p.2
                (depth + 1) w2) as Htuples.
  destruct (drive (_run_fuel fuel self (of_list (mapper self os)) p.2 (depth + 1)) w2)
    as [[os' r'] w3]. simpl in *.
  exists p.1, os, ((λ item, Pair item (mapper self os)) <$> os'). split; [done|].
  apply Forall_fmap. eapply Forall_impl; [exact Htuples|].
  intros y (x & l & ->). done.
Qed.

End RecursionShape.

(** ** Runs of the whole batching stage *)

(** Two runs in sequence over the same three records, given in different
    orders: the second run yields the row of the first, and the agent has
    been called once. *)
Example cache_idempotence_of_runs :
  let self := Scenario.batched 15 20 10 in
  let first_run :=
    drive (Batched.run self (of_list (Scenario.record <$> [3; 1; 2])) 0%nat) Scenario.world in
  let second_run :=
    drive (Batched.run self (of_list (Scenario.record <$> [1; 2; 3])) 0%nat) first_run.2 in
  first_run.1.2 = None
  ∧ second_run.1 = first_run.1
  ∧ BatchAnalysisRecord.id <$> first_run.1.1 = [Some 1]
  ∧ agent_calls (calls second_run.2) = 1%nat.
Proof. vm_compute. repeat split. Qed.

(** A step of zero is refused by [range], a negative one gives no wave. *)
Example run_batches_degenerate_concurrency :
  (drive (Batched._run_batches (Scenario.batched 2 5 0) [[Scenario.record 1]] 0%nat)
     Scenario.world).1
  = ([], Some (ValueError "range() arg 3 must not be zero"))
  ∧ (drive (Batched._run_batches (Scenario.batched 2 5 (-1)) [[Scenario.record 1]] 0%nat)
       Scenario.world).1
    = ([], None).
Proof. split; reflexivity. Qed.

(** * Further properties of the code *)

(** ** The query of the cache *)

Section QueryFacts.

Lemma newer_asym a b : BatchAnalysisRecord.newer a b = true → BatchAnalysisRecord.newer b a = false.
Proof.
  destruct a as [x|], b as [y|]; simpl; try done.
  rewrite bool_decide_eq_true, bool_decide_eq_false. lia.
Qed.

Lemma newer_false_trans a b c :
  BatchAnalysisRecord.newer a b = false → BatchAnalysisRecord.newer b c = false →
  BatchAnalysisRecord.newer a c = false.
Proof.
  destruct a as [x|], b as [y|], c as [z|]; simpl; try done.
  rewrite !bool_decide_eq_false. lia.
Qed.

Lemma newer_irrefl a : BatchAnalysisRecord.newer a a = false.
Proof. destruct a as [x|]; simpl; [|done]. rewrite bool_decide_eq_false. lia. Qed.

(** [latest] picks a row that no row it has seen is newer than. *)
Lemma latest_greatest best rows x :
  x ∈ best :: rows →
  BatchAnalysisRecord.newer (BatchAnalysisRecord.created_at x)
    (BatchAnalysisRecord.created_at (BatchAnalysisRecord.latest best rows)) = false.
Proof.
  revert best x. induction rows as [|r rows IH]; intros best x Hx; simpl.
  - apply list_elem_of_singleton in Hx as ->. apply newer_irrefl.
  - destruct (BatchAnalysisRecord.newer (BatchAnalysisRecord.created_at r)
                (BatchAnalysisRecord.created_at best)) eqn:Hnewer.
    + apply elem_of_cons in Hx as [->|Hx].
      * eapply newer_false_trans; [by apply newer_asym|]. apply IH. set_solver.
      * apply IH. set_solver.
    + apply elem_of_cons in Hx as [->|Hx]; [apply IH; set_solver|].
      apply elem_of_cons in Hx as [->|Hx]; [|apply IH; set_solver].
      eapply newer_false_trans; [exact Hnewer|]. apply IH. set_solver.
Qed.

End QueryFacts.

(** [BatchAnalysisRecord.query] answers [None] exactly when no row of the
    table is stored under the key; otherwise it answers a row of the table
    that is stored under the key and that no other row under the key is
    newer than. *)
Theorem query_finds_the_latest_match
    (rows : list BatchAnalysisRecord.t) (analysis_type : string) (run_id : Z)
    (input_agent_ids : string) :
  (BatchAnalysisRecord.query rows analysis_type run_id input_agent_ids = None
   ↔ ∀ row, row ∈ rows →
       BatchAnalysisRecord.matches analysis_type run_id input_agent_ids row = false)
  ∧ (∀ record,
       BatchAnalysisRecord.query rows analysis_type run_id input_agent_ids = Some record →
       record ∈ rows
       ∧ BatchAnalysisRecord.ingestion_run_id record = run_id
       ∧ BatchAnalysisRecord.input_agent_ids record = input_agent_ids
       ∧ BatchAnalysisRecord.analysis_type record = analysis_type
       ∧ ∀ row, row ∈ rows →
           BatchAnalysisRecord.matches analysis_type run_id input_agent_ids row = true →
           BatchAnalysisRecord.newer (BatchAnalysisRecord.created_at row)
             (BatchAnalysisRecord.created_at record) = false).
Proof.
  split.
  - split.
    + intros Hnone row Hin.
      destruct (BatchAnalysisRecord.matches _ _ _ row) eqn:Hmatch; [|done].
      destruct (query_is_Some _ _ _ _ _ Hin Hmatch) as [record Hsome]. congruence.
    + intros Hnone.
      destruct (BatchAnalysisRecord.query _ _ _ _) as [record|] eqn:Hquery; [|done].
      apply query_Some in Hquery as [Hin Hmatch]. rewrite (Hnone _ Hin) in Hmatch. done.
  - intros record Hquery. pose proof (query_Some _ _ _ _ _ Hquery) as [Hin Hmatch].
    split; [done|].
    unfold BatchAnalysisRecord.matches in Hmatch.
    apply andb_true_iff in Hmatch as [Hmatch Htype].
    apply andb_true_iff in Hmatch as [Hrun Hids].
    apply bool_decide_eq_true in Hrun, Hids, Htype.
    repeat (split; [done|]).
    intros row Hrow Hmatches.
    unfold BatchAnalysisRecord.query, BatchAnalysisRecord.first_desc in Hquery.
    destruct (List.filter _ rows) as [|r rows'] eqn:Hfilter; simplify_eq.
    apply latest_greatest. rewrite <-Hfilter.
    apply list_elem_of_In, List.filter_In. split; [by apply list_elem_of_In|done].
Qed.

(** ** Batch formation: order, filter and sizes *)

Section FormationFacts.
Context `{Runtime}.
Import CookieFunBatchedAnalysisPipeline.

Implicit Types (self : t) (items consumed : list HistoricAgentRecord.t).
Implicit Types (cur : list HistoricAgentRecord.t) (bs : list (list HistoricAgentRecord.t)).

(** The loop takes a prefix of its input, drops the rejected records and
    appends the accepted ones, in order, to the batches; when it leaves
    with input left over, the cap has been reached. *)
Lemma form_batches_partition self items cur bs w cur' bs' w' :
  form_batches self (of_list items) cur bs w = (Ok (cur', bs'), w') →
  ∃ consumed rest,
    items = consumed ++ rest
    ∧ concat bs' ++ cur' = concat bs ++ cur ++ List.filter (filter_agents self) consumed
    ∧ (rest ≠ [] → max_batches self ≤ len bs').
Proof.
  revert cur bs. induction items as [|record items IH]; intros cur bs Hrun; simpl in Hrun.
  - unfold ret in Hrun. simplify_eq. exists [], []. split; [done|].
    split; [simpl; by rewrite app_nil_r|done].
  - destruct (filter_agents self record) eqn:Haccept; simpl in Hrun.
    + assert (∀ cur1 bs1,
                concat bs1 ++ cur1 = concat bs ++ cur ++ [record] →
                form_batches self (of_list items) cur1 bs1 w = (Ok (cur', bs'), w') →
                ∃ consumed rest,
                  record :: items = consumed ++ rest
                  ∧ concat bs' ++ cur'
                    = concat bs ++ cur ++ List.filter (filter_agents self) consumed
                  ∧ (rest ≠ [] → max_batches self ≤ len bs')) as Hgo.
      { intros cur1 bs1 Hstate Hrest.
        apply IH in Hrest as (consumed & rest & -> & Hcat & Hcap).
        exists (record :: consumed), rest. split; [done|]. split; [|done].
        simpl. rewrite Haccept, Hcat, (assoc_L (++)), Hstate.
        by rewrite <-!(assoc_L (++)). }
      assert (∀ cur1 bs1,
                concat bs1 ++ cur1 = concat bs ++ cur ++ [record] →
                max_batches self ≤ len bs1 →
                (Ok (cur1, bs1), w) = (Ok (cur', bs'), w') →
                ∃ consumed rest,
                  record :: items = consumed ++ rest
                  ∧ concat bs' ++ cur'
                    = concat bs ++ cur ++ List.filter (filter_agents self) consumed
                  ∧ (rest ≠ [] → max_batches self ≤ len bs')) as Hbreak.
      { intros cur1 bs1 Hstate Hcap ?. simplify_eq.
        exists [record], items. split; [done|]. split; [|done].
        simpl. by rewrite Haccept. }
      destruct (len (cur ++ [record]) >=? batch_size self).
      * assert (concat (bs ++ [cur ++ [record]]) ++ [] = concat bs ++ cur ++ [record])
          as Hstate.
        { rewrite concat_app. simpl. by rewrite !app_nil_r. }
        destruct (len (bs ++ [cur ++ [record]]) >=? max_batches self) eqn:Hcap.
        -- apply geb_true in Hcap. by eapply Hbreak.
        -- by eapply Hgo.
      * assert (concat bs ++ cur ++ [record] = concat bs ++ cur ++ [record]) as Hstate
          by done.
        destruct (len bs >=? max_batches self) eqn:Hcap.
        -- apply geb_true in Hcap. eapply Hbreak; [|done..]. done.
        -- eapply Hgo; [|done]. done.
    + apply IH in Hrun as (consumed & rest & -> & Hcat & Hcap).
      exists (record :: consumed), rest. split; [done|]. split; [|done].
      simpl. by rewrite Haccept.
Qed.

Lemma concat_seal_trailing cur bs : concat (seal_trailing cur bs) = concat bs ++ cur.
Proof.
  destruct cur as [|record cur]; simpl; [by rewrite app_nil_r|].
  rewrite concat_app. simpl. by rewrite app_nil_r.
Qed.

(** With a batch size of at least one the sealed batches are full and the
    running batch is not. *)
Lemma form_batches_sizes self (input : Gen HistoricAgentRecord.t) cur bs w cur' bs' w' :
  1 ≤ batch_size self →
  len cur < batch_size self →
  Forall (λ b, len b = batch_size self) bs →
  form_batches self input cur bs w = (Ok (cur', bs'), w') →
  len cur' < batch_size self ∧ Forall (λ b, len b = batch_size self) bs'.
Proof.
  intros Hsize. revert cur bs w.
  induction input as [|e|record rest IH|step IH] using Gen_ind;
    intros cur bs w Hcur Hbs Hrun; simpl in Hrun.
  - unfold ret in Hrun. by simplify_eq.
  - unfold raise in Hrun. simplify_eq.
  - destruct (filter_agents self record); simpl in Hrun; [|by eapply IH].
    destruct (len (cur ++ [record]) >=? batch_size self) eqn:Hfull.
    + apply geb_true in Hfull. rewrite len_snoc in Hfull.
      assert (Forall (λ b, len b = batch_size self) (bs ++ [cur ++ [record]])) as Hbs'.
      { apply Forall_app. split; [done|]. apply Forall_singleton.
        rewrite len_snoc. lia. }
      destruct (len (bs ++ [cur ++ [record]]) >=? max_batches self).
      * unfold ret in Hrun. simplify_eq. split; [unfold len; simpl; lia|done].
      * eapply IH; [| |exact Hrun]; [unfold len; simpl; lia|done].
    + apply geb_false in Hfull.
      destruct (len bs >=? max_batches self).
      * unfold ret in Hrun. by simplify_eq.
      * eapply IH; [| |exact Hrun]; done.
  - specialize (IH w). destruct (step w) as [input' w1]. by eapply IH.
Qed.

(** With a batch size below one every accepted record is sealed alone. *)
Lemma form_batches_singletons self (input : Gen HistoricAgentRecord.t) cur bs w cur' bs' w' :
  batch_size self ≤ 0 →
  cur = [] →
  Forall (λ b, length b = 1%nat) bs →
  form_batches self input cur bs w = (Ok (cur', bs'), w') →
  cur' = [] ∧ Forall (λ b, length b = 1%nat) bs'.
Proof.
  intros Hsize. revert cur bs w.
  induction input as [|e|record rest IH|step IH] using Gen_ind;
    intros cur bs w -> Hbs Hrun; simpl in Hrun.
  - unfold ret in Hrun. by simplify_eq.
  - unfold raise in Hrun. simplify_eq.
  - destruct (filter_agents self record); simpl in Hrun; [|by eapply IH].
    destruct (len [record] >=? batch_size self) eqn:Hfull.
    + assert (Forall (λ b, length b = 1%nat) (bs ++ [[record]])) as Hbs'.
      { apply Forall_app. split; [done|]. by apply Forall_singleton. }
      destruct (len (bs ++ [[record]]) >=? max_batches self).
      * unfold ret in Hrun. by simplify_eq.
      * eapply IH; [| |exact Hrun]; done.
    + apply geb_false in Hfull. unfold len in Hfull. simpl in Hfull. lia.
  - specialize (IH w). destruct (step w) as [input' w1]. by eapply IH.
Qed.

End FormationFacts.

Section FormationProperties.
  Context `{Runtime}.
  Import CookieFunBatchedAnalysisPipeline.

(** Over a list of records the batches that [run] forms are, put end to
    end, the accepted records of a prefix of the list, in their order: no
    rejected record is in a batch, none is in two, and the order is kept.
    When a part of the list was left unread, the number of batches has
    reached [max_batches]. *)
Theorem batches_hold_the_accepted_records_in_order
    (self : t) (items : list HistoricAgentRecord.t) (metadata : loc) (w : World)
    (p : loc * list (list HistoricAgentRecord.t)) (w' : World) :
  prepare self (of_list items) metadata w = (Ok p, w') →
  ∃ consumed rest,
    items = consumed ++ rest
    ∧ concat p.2 = List.filter (filter_agents self) consumed
    ∧ (rest ≠ [] → max_batches self ≤ len p.2)
    ∧ ∀ batch record, batch ∈ p.2 → record ∈ batch →
        filter_agents self record = true ∧ record ∈ items.
Proof.
  intros Hrun. rewrite prepare_eq in Hrun. simpl in Hrun.
  destruct (form_batches _ _ _ _ _) as [[[cur bs]|e] w1] eqn:Hform; simplify_eq.
  apply form_batches_partition in Hform as (consumed & rest & -> & Hcat & Hcap).
  simpl in *.
  exists consumed, rest. split; [done|].
  assert (concat (seal_trailing cur bs) = List.filter (filter_agents self) consumed)
    as Hall by (by rewrite concat_seal_trailing).
  split; [done|]. split.
  - intros Hrest. specialize (Hcap Hrest).
    destruct cur; simpl; [done|]. rewrite len_snoc. lia.
  - intros batch record Hbatch Hrecord.
    assert (record ∈ concat (seal_trailing cur bs)) as Hin.
    { apply list_elem_of_In, in_concat. exists batch.
      split; by apply list_elem_of_In. }
    rewrite Hall in Hin. apply list_elem_of_In, List.filter_In in Hin as [Hin Haccept].
    split; [done|]. apply elem_of_app. left. by apply list_elem_of_In.
Qed.

(** With a batch size of at least one, every batch that [run] forms holds
    between one and [batch_size] records, and every batch but the last
    holds exactly [batch_size]; with a batch size below one, every batch
    holds exactly one record. *)
Theorem batches_are_full_but_the_last
    (self : t) (input : Gen HistoricAgentRecord.t) (metadata : loc) (w : World)
    (p : loc * list (list HistoricAgentRecord.t)) (w' : World) :
  prepare self input metadata w = (Ok p, w') →
  (1 ≤ batch_size self →
   ∀ i batch, p.2 !! i = Some batch →
     1 ≤ len batch ≤ batch_size self
     ∧ ((S i < length p.2)%nat → len batch = batch_size self))
  ∧ (batch_size self ≤ 0 → Forall (λ batch, length batch = 1%nat) p.2).
Proof.
  intros Hrun. rewrite prepare_eq in Hrun. simpl in Hrun.
  destruct (form_batches _ _ _ _ _) as [[[cur bs]|e] w1] eqn:Hform; simplify_eq.
  simpl. split.
  - intros Hsize i batch Hlookup.
    apply form_batches_sizes in Hform as [Hcur Hbs]; [|done|unfold len; simpl; lia|done].
    rewrite Forall_lookup in Hbs.
    destruct cur as [|record cur]; simpl in *.
    + rewrite (Hbs i batch Hlookup). lia.
    + apply lookup_app_Some in Hlookup as [Hlookup|[Hlen Hlookup]].
      * rewrite (Hbs i batch Hlookup). lia.
      * apply list_lookup_singleton_Some in Hlookup as [Hi <-].
        split; [unfold len in *; simpl in *; lia|].
        rewrite length_app. simpl. lia.
  - intros Hsize.
    apply form_batches_singletons in Hform as [-> Hbs]; done.
Qed.

(** Over a list of which the filter accepts no record, [run] forms no
    batch: it creates its metadata dict and nothing else; it yields nothing
    and ends normally, unless [concurrency] is zero, in which case it ends
    in the [ValueError] of [range] all the same. *)
Theorem run_without_accepted_records
    (self : t) (items : list HistoricAgentRecord.t) (metadata : loc) (w : World) :
  Forall (λ record, filter_agents self record = false) items →
  drive (run self (of_list items) metadata) w
  = ([],
     if concurrency self =? 0 then Some (ValueError "range() arg 3 must not be zero")
     else None,
     mkWorld (db w) (heap w ++ [run_metadata self (default ∅ (heap w !! metadata))])
       (stdout w) (calls w) (env w)).
Proof.
  intros Hrejected. rewrite drive_run, prepare_eq. simpl.
  assert (∀ w1, form_batches self (of_list items) [] [] w1 = (Ok ([], []), w1)) as ->.
  { intros w1. induction Hrejected as [|record items Hrecord _ IH]; [done|].
    simpl. by rewrite Hrecord. }
  simpl. unfold _run_batches.
  destruct (concurrency self =? 0) eqn:Hzero; [done|].
  destruct (concurrency self <? 0) eqn:Hneg; [done|].
  apply Z.eqb_neq in Hzero. apply Z.ltb_ge in Hneg.
  unfold range0. simpl.
  rewrite Nat.div_small by lia. done.
Qed.

(** With a [concurrency] below one no work unit runs, whatever the input
    list: [run] forms its batches and creates its metadata dict, calls no
    collaborator and writes no row, and yields nothing; it ends in the
    [ValueError] of [range] when [concurrency] is zero and normally when it
    is negative, the batches being dropped without a word. *)
Theorem run_with_concurrency_below_one
    (self : t) (items : list HistoricAgentRecord.t) (metadata : loc) (w : World) :
  concurrency self ≤ 0 →
  drive (run self (of_list items) metadata) w
  = ([],
     if concurrency self =? 0 then Some (ValueError "range() arg 3 must not be zero")
     else None,
     mkWorld (db w) (heap w ++ [run_metadata self (default ∅ (heap w !! metadata))])
       (stdout w) (calls w) (env w)).
Proof.
  intros Hconcurrency. rewrite drive_run, prepare_eq. simpl.
  destruct (form_batches_of_list self items [] []
              (mkWorld (db w)
                 (heap w ++ [run_metadata self (default ∅ (heap w !! metadata))])
                 (stdout w) (calls w) (env w))) as (cur & bs & ->).
  simpl. unfold _run_batches.
  destruct (concurrency self =? 0) eqn:Hzero; [done|].
  destruct (concurrency self <? 0) eqn:Hneg; [done|].
  apply Z.eqb_neq in Hzero. apply Z.ltb_ge in Hneg. lia.
Qed.

End FormationProperties.

(** Batch size 2 and cap 2 over the records 1 to 5, the filter rejecting
    record 2: the batches hold 1, 3, 4, 5 in order, and nothing is left
    unread. *)
Lemma batches_hold_the_accepted_records_in_order_witness :
  let self :=
    Batched.mk "large_caps:abc123" Scenario.agent Scenario.identify_top_agents
      (λ record, negb (bool_decide (HistoricAgentRecord.id record = 2))) false 2 2 1 ∅ in
  let items := Scenario.record <$> [1; 2; 3; 4; 5] in
  ∃ p w' consumed rest,
    Batched.prepare self (of_list items) 0%nat Scenario.world = (Ok p, w')
    ∧ p.2 = [Scenario.record <$> [1; 3]; Scenario.record <$> [4; 5]]
    ∧ items = consumed ++ rest
    ∧ concat p.2 = List.filter (Batched.filter_agents self) consumed.
Proof.
  intros self items.
  destruct (Batched.prepare self (of_list items) 0%nat Scenario.world)
    as [[p|e] w'] eqn:Hrun; [|by vm_compute in Hrun].
  destruct (batches_hold_the_accepted_records_in_order self items 0%nat Scenario.world
              p w' Hrun) as (consumed & rest & Hitems & Hcat & _).
  exists p, w', consumed, rest. split; [done|]. split; [|done].
  vm_compute in Hrun. by simplify_eq.
Defined.

(** Batch size 2 over five records: two full batches and a last one of one
    record. *)
Lemma batches_are_full_but_the_last_witness :
  let self := Scenario.batched 2 5 1 in
  ∃ p w',
    Batched.prepare self (of_list (Scenario.record <$> [1; 2; 3; 4; 5])) 0%nat Scenario.world
    = (Ok p, w')
    ∧ length <$> p.2 = [2; 2; 1]%nat
    ∧ ∀ i batch, p.2 !! i = Some batch → 1 ≤ len batch ≤ 2.
Proof.
  intros self.
  destruct (Batched.prepare self (of_list (Scenario.record <$> [1; 2; 3; 4; 5])) 0%nat
              Scenario.world) as [[p|e] w'] eqn:Hrun; [|by vm_compute in Hrun].
  exists p, w'. split; [done|]. split.
  - vm_compute in Hrun. by simplify_eq.
  - intros i batch Hlookup.
    apply (proj1 (proj1 (batches_are_full_but_the_last self _ 0%nat Scenario.world p w'
                           Hrun) ltac:(vm_compute; discriminate) i batch Hlookup)).
Defined.

(** A filter that rejects every record: the run creates its dict, yields
    nothing and calls no collaborator. *)
Lemma run_without_accepted_records_witness :
  let self :=
    Batched.mk "none:abc123" Scenario.agent Scenario.identify_top_agents
      (λ _, false) false 2 2 1 ∅ in
  ∃ w', drive (Batched.run self (of_list (Scenario.record <$> [1; 2; 3])) 0%nat)
          Scenario.world = ([], None, w')
        ∧ calls w' = [] ∧ db w' = [] ∧ length (heap w') = 2%nat.
Proof.
  intros self. eexists. split.
  - apply (run_without_accepted_records self (Scenario.record <$> [1; 2; 3]) 0%nat
             Scenario.world).
    repeat constructor.
  - repeat split.
Defined.

(** A negative concurrency: three records, two batches, and nothing done. *)
Lemma run_with_concurrency_below_one_witness :
  ∃ w', drive (Batched.run (Scenario.batched 2 5 (-1))
                 (of_list (Scenario.record <$> [1; 2; 3])) 0%nat) Scenario.world
        = ([], None, w')
        ∧ calls w' = [] ∧ db w' = [].
Proof.
  eexists. split.
  - apply (run_with_concurrency_below_one (Scenario.batched 2 5 (-1))
             (Scenario.record <$> [1; 2; 3]) 0%nat Scenario.world).
    vm_compute. discriminate.
  - split; reflexivity.
Defined.

(** ** The work unit and the waves: what is written, and when *)

Section WorkUnitFacts.
Context `{Runtime}.
Import CookieFunBatchedAnalysisPipeline.

Implicit Types (self : t) (batch : list HistoricAgentRecord.t) (metadata : loc).

(** Whatever a work unit does, the rows of the table stay, in place; what
    it returns is a row of the table stored under the key of its batch;
    when it fails, the table is as before. *)
Lemma run_agent_db self batch metadata w r w1 :
  _run_agent self batch metadata w = (r, w1) →
  db w `prefix_of` db w1
  ∧ match r with
    | Ok row => row ∈ db w1 ∧ stored_for self batch row
    | Raise _ => db w1 = db w
    end.
Proof.
  destruct batch as [|first rest].
  { unfold _run_agent, raise. intros ?. simplify_eq. split; [reflexivity|done]. }
  unfold _run_agent. unfold bind at 1. unfold db_query. intros Hrun.
  assert (∀ row, BatchAnalysisRecord.query (db w) (analysis_type self)
                   (HistoricAgentRecord.ingestion_run_id first)
                   (BatchAnalysisRecord.serialize_agent_ids
                      (HistoricAgentRecord.id <$> first :: rest)) = Some row →
                 row ∈ db w ∧ stored_for self (first :: rest) row) as Hhit.
  { intros row Hquery. apply query_Some in Hquery as [Hin Hmatch].
    split; [done|]. by exists first, rest. }
  assert ((let '(r0, w0) :=
             (analysis <- external (CallAgent (HistoricAgentRecord.data <$> first :: rest))
                            (agent self (HistoricAgentRecord.data <$> first :: rest)) ;;
              top_agent_ids <- external (CallIdentifyTopAgents (first :: rest) analysis)
                                 (identify_top_agents self (first :: rest) analysis) ;;
              meta <- get_dict metadata ;;
              db_insert (BatchAnalysisRecord.mk None
                           (HistoricAgentRecord.ingestion_run_id first)
                           (BatchAnalysisRecord.serialize_agent_ids
                              (HistoricAgentRecord.id <$> first :: rest))
                           None (analysis_type self) analysis top_agent_ids meta)) w in
           db w `prefix_of` db w0
           ∧ match r0 with
             | Ok row => row ∈ db w0 ∧ stored_for self (first :: rest) row
             | Raise _ => db w0 = db w
             end)) as Hmiss.
  { unfold bind, external, get_dict, db_insert. simpl.
    destruct (agent self _ _) as [[text|code] env1]; simpl;
      [|split; [reflexivity|done]].
    destruct (identify_top_agents self _ _ _) as [[top|code] env2]; simpl;
      [|split; [reflexivity|done]].
    split; [by apply prefix_app_r|]. split.
    - apply elem_of_app. right. apply list_elem_of_here.
    - exists first, rest. split; [done|]. unfold BatchAnalysisRecord.matches. simpl.
      by rewrite !bool_decide_eq_true_2. }
  destruct (BatchAnalysisRecord.query _ _ _ _) as [record|] eqn:Hquery,
    (ignore_cached self); try (rewrite Hrun in Hmiss; exact Hmiss).
  unfold ret in Hrun. simplify_eq. split; [reflexivity|]. by apply Hhit.
Qed.

Lemma gather_run_agent_db self metadata (chunk : list (list HistoricAgentRecord.t)) w r w1 :
  gather ((λ batch, _run_agent self batch metadata) <$> chunk) w = (r, w1) →
  db w `prefix_of` db w1
  ∧ match r with
    | Ok rows => Forall2 (λ batch row, row ∈ db w1 ∧ stored_for self batch row) chunk rows
    | Raise _ => True
    end.
Proof.
  revert w r w1. induction chunk as [|batch chunk IH]; intros w r w1 Hrun.
  - simpl in Hrun. unfold ret in Hrun. simplify_eq. split; [reflexivity|constructor].
  - rewrite fmap_cons, gather_cons in Hrun.
    destruct (_run_agent self batch metadata w) as [[row|e] w0] eqn:Hagent.
    + apply run_agent_db in Hagent as [Hprefix [Hin Hstored]].
      destruct (gather _ w0) as [[rows|e] w2] eqn:Hrest.
      * apply IH in Hrest as [Hprefix' Hrows]. simplify_eq.
        split; [by etrans|]. constructor; [|done]. split; [|done].
        destruct Hprefix' as [k ->]. apply elem_of_app. by left.
      * apply IH in Hrest as [Hprefix' _]. simplify_eq. split; [by etrans|done].
    + apply run_agent_db in Hagent as [Hprefix Hdb]. by simplify_eq.
Qed.

Lemma wave_db self batches metadata index w r w1 :
  wave self batches metadata index w = (r, w1) →
  db w `prefix_of` db w1
  ∧ match r with
    | Ok rows =>
        Forall2 (λ batch row, row ∈ db w1 ∧ stored_for self batch row)
          (slice batches index (Z.to_nat (concurrency self))) rows
    | Raise _ => True
    end.
Proof.
  rewrite wave_eq. unfold task_group.
  destruct (gather _ _) as [r0 w0] eqn:Hgather.
  apply gather_run_agent_db in Hgather as [Hprefix Hrows].
  destruct r0 as [rows|e]; intros ?; by simplify_eq.
Qed.

(** The loop of waves: the table only grows; every record yielded is a row
    of the table and is stored under the key of a batch; and when no wave
    fails, one record is yielded for each batch of the waves. *)
Lemma run_waves_db self batches metadata indices w os r w1 :
  drive (run_waves self batches metadata indices) w = (os, r, w1) →
  db w `prefix_of` db w1
  ∧ Forall (λ row, row ∈ db w1 ∧ ∃ batch, batch ∈ batches ∧ stored_for self batch row) os
  ∧ (r = None →
     length os
     = length (concat ((λ i, slice batches i (Z.to_nat (concurrency self))) <$> indices))).
Proof.
  revert w os r w1. induction indices as [|index indices IH]; intros w os r w1 Hrun.
  - simpl in Hrun. simplify_eq. split; [reflexivity|]. by split.
  - rewrite drive_run_waves_cons in Hrun.
    destruct (wave self batches metadata index w) as [[rows|e] w0] eqn:Hwave.
    + apply wave_db in Hwave as [Hprefix Hrows].
      destruct (drive (run_waves self batches metadata indices) w0)
        as [[os1 r1] w2] eqn:Hrest.
      apply IH in Hrest as (Hprefix' & Hos & Hlen). simplify_eq.
      split; [by etrans|]. split.
      * apply Forall_app. split; [|done].
        rewrite (as_completed_perm _ rows).
        apply Forall_forall. intros row Hrow.
        apply list_elem_of_lookup in Hrow as [i Hi].
        destruct (Forall2_lookup_r _ _ _ _ _ Hrows Hi) as (batch & Hbatch & Hin & Hstored).
        split.
        -- destruct Hprefix' as [k ->]. apply elem_of_app. by left.
        -- exists batch. split; [|done].
           apply list_elem_of_lookup_2 in Hbatch.
           unfold slice in Hbatch.
           by apply subseteq_take, subseteq_drop in Hbatch.
      * intros Hnone. rewrite fmap_cons, concat_cons, !length_app, (Hlen Hnone).
        f_equal. rewrite (Permutation_length (as_completed_perm _ rows)).
        symmetry. by eapply Forall2_length.
    + apply wave_db in Hwave as [Hprefix _]. simplify_eq. by repeat split.
Qed.

Lemma yielded_rows_in_db self batches metadata w os r w1 :
  drive (_run_batches self batches metadata) w = (os, r, w1) →
  Forall (λ row, row ∈ db w1) os.
Proof.
  unfold _run_batches. intros Hrun.
  destruct (concurrency self =? 0); [simpl in Hrun; by simplify_eq|].
  destruct (concurrency self <? 0); [simpl in Hrun; by simplify_eq|].
  apply run_waves_db in Hrun as (_ & Hos & _).
  eapply Forall_impl; [exact Hos|]. by intros row [Hin _].
Qed.

End WorkUnitFacts.

Section WorkUnitProperties.
  Context `{Runtime}.
  Import CookieFunBatchedAnalysisPipeline.

(** However [_run_batches] ends, the rows that the table had stay in place
    (no row is removed or changed), and every record that was yielded is a
    row of the table, stored under the key of one of the batches: a result
    is written before it is yielded.  When the run ends normally with a
    positive [concurrency], exactly one record was yielded for each
    batch. *)
Theorem yielded_records_are_stored_rows
    (self : t) (batches : list (list HistoricAgentRecord.t)) (metadata : loc)
    (w : World) (os : list BatchAnalysisRecord.t) (r : option exn) (w' : World) :
  drive (_run_batches self batches metadata) w = (os, r, w') →
  db w `prefix_of` db w'
  ∧ Forall (λ row, row ∈ db w' ∧ ∃ batch, batch ∈ batches ∧ stored_for self batch row) os
  ∧ (r = None → 0 < concurrency self → length os = length batches).
Proof.
  unfold _run_batches. intros Hrun.
  destruct (concurrency self =? 0) eqn:Hzero.
  { simpl in Hrun. simplify_eq. split; [reflexivity|]. by split. }
  destruct (concurrency self <? 0) eqn:Hneg.
  { simpl in Hrun. simplify_eq. split; [reflexivity|]. split; [done|].
    apply Z.ltb_lt in Hneg. lia. }
  apply run_waves_db in Hrun as (Hprefix & Hos & Hlen).
  split; [done|]. split; [done|]. intros Hnone Hpos.
  rewrite (Hlen Hnone).
  by rewrite (proj1 (slices_cover batches (Z.to_nat (concurrency self)) ltac:(lia))).
Qed.

(** A work unit that fails has written no row, and has touched neither the
    heap nor the output.  It fails on an empty batch, without a call; or by
    the [agent], and then [identify_top_agents] is not called; or by
    [identify_top_agents] after the [agent] has answered. *)
Theorem failed_work_unit_writes_no_row
    (self : t) (batch : list HistoricAgentRecord.t) (metadata : loc)
    (w : World) (e : exn) (w' : World) :
  _run_agent self batch metadata w = (Raise e, w') →
  db w' = db w ∧ heap w' = heap w ∧ stdout w' = stdout w
  ∧ ((batch = [] ∧ e = ValueError "Batch is empty" ∧ calls w' = calls w)
     ∨ (∃ code env1,
          agent self (HistoricAgentRecord.data <$> batch) (env w) = (Failed code, env1)
          ∧ e = CollaboratorFailure code
          ∧ calls w' = calls w ++ [CallAgent (HistoricAgentRecord.data <$> batch)])
     ∨ (∃ text env1 code env2,
          agent self (HistoricAgentRecord.data <$> batch) (env w) = (Done text, env1)
          ∧ identify_top_agents self batch text env1 = (Failed code, env2)
          ∧ e = CollaboratorFailure code
          ∧ calls w' = calls w ++ [CallAgent (HistoricAgentRecord.data <$> batch);
                                   CallIdentifyTopAgents batch text])).
Proof.
  destruct batch as [|first rest].
  { unfold _run_agent, raise. intros ?. simplify_eq. repeat split. by left. }
  unfold _run_agent, bind, db_query, external, get_dict, db_insert. intros Hrun.
  destruct (BatchAnalysisRecord.query _ _ _ _) as [record|], (ignore_cached self);
    try (unfold ret in Hrun; simplify_eq);
    destruct (agent self _ _) as [[text|code] env1] eqn:Hagent; simpl in Hrun;
    try (simplify_eq; repeat split; right; left; by eexists _, _);
    destruct (identify_top_agents self _ _ _) as [[top|code] env2] eqn:Htop;
    simpl in Hrun; simplify_eq; repeat split; right; right;
    eexists _, _, _, _; repeat split; try done;
    by rewrite <-(assoc_L (++)).
Qed.

(** With [ignore_cached] set and collaborators that answer, the work unit
    calls both collaborators and appends a new row, whether or not the table
    has rows under the key of the batch: the rows of the table stay, the new
    row gets a primary key that no row of the table has, and the number of
    rows under the key grows by one. *)
Theorem ignore_cached_always_analyses
    (self : t) (first : HistoricAgentRecord.t) (rest : list HistoricAgentRecord.t)
    (metadata : loc) (w : World) (text : string) (env1 : Env) (top : list Z) (env2 : Env) :
  ignore_cached self = true →
  agent self (HistoricAgentRecord.data <$> first :: rest) (env w) = (Done text, env1) →
  identify_top_agents self (first :: rest) text env1 = (Done top, env2) →
  ∃ row w',
    _run_agent self (first :: rest) metadata w = (Ok row, w')
    ∧ db w' = db w ++ [row]
    ∧ BatchAnalysisRecord.analysis row = text
    ∧ BatchAnalysisRecord.top_agent_ids row = top
    ∧ (∀ old, old ∈ db w → BatchAnalysisRecord.id old ≠ BatchAnalysisRecord.id row)
    ∧ calls w' = calls w ++ [CallAgent (HistoricAgentRecord.data <$> first :: rest);
                             CallIdentifyTopAgents (first :: rest) text]
    ∧ length (List.filter
                (BatchAnalysisRecord.matches (analysis_type self)
                   (HistoricAgentRecord.ingestion_run_id first)
                   (BatchAnalysisRecord.serialize_agent_ids
                      (HistoricAgentRecord.id <$> first :: rest))) (db w'))
      = S (length (List.filter
                     (BatchAnalysisRecord.matches (analysis_type self)
                        (HistoricAgentRecord.ingestion_run_id first)
                        (BatchAnalysisRecord.serialize_agent_ids
                           (HistoricAgentRecord.id <$> first :: rest))) (db w))).
Proof.
  intros Hignore Hagent Htop.
  unfold _run_agent, bind, db_query. rewrite Hignore.
  assert (∀ rows old, old ∈ rows →
            default 0 (BatchAnalysisRecord.id old) < BatchAnalysisRecord.next_id rows)
    as Hfresh.
  { intros rows old Hold. unfold BatchAnalysisRecord.next_id.
    induction Hold as [old rows|old other rows Hold IH]; simpl; lia. }
  eexists _, _. split.
  { destruct (BatchAnalysisRecord.query _ _ _ _) as [record|];
      unfold external at 1; rewrite Hagent; unfold external at 1; simpl;
      rewrite Htop; unfold get_dict, db_insert; simpl; reflexivity. }
  simpl. repeat split.
  - intros old Hold Heq. specialize (Hfresh _ _ Hold). rewrite Heq in Hfresh.
    simpl in Hfresh. lia.
  - by rewrite <-(assoc_L (++)).
  - rewrite List.filter_app, length_app. simpl.
    unfold BatchAnalysisRecord.matches at 2. simpl.
    rewrite !bool_decide_eq_true_2 by done. simpl. lia.
Qed.

End WorkUnitProperties.

(** Five batches in waves of two with a service that fails its fourth
    call: the two records yielded are rows of the table, which has grown
    from none to three rows. *)
Lemma yielded_records_are_stored_rows_witness :
  let self := Scenario.flaky_batched 3 1 20 2 in
  let batches := (λ i, [Scenario.record i]) <$> [1; 2; 3; 4; 5] in
  let outcome := drive (Batched._run_batches self batches 0%nat) Scenario.world in
  length outcome.1.1 = 2%nat
  ∧ length (db outcome.2) = 3%nat
  ∧ Forall (λ row, row ∈ db outcome.2) outcome.1.1.
Proof.
  intros self batches outcome. split; [reflexivity|]. split; [reflexivity|].
  destruct outcome as [[os r] w'] eqn:Hrun.
  destruct (yielded_records_are_stored_rows self batches 0%nat Scenario.world os r w' Hrun)
    as (_ & Hos & _).
  simpl. eapply Forall_impl; [exact Hos|]. by intros row [Hin _].
Defined.

(** The service fails its first call: the shortlist service is not called
    and the table stays empty. *)
Lemma failed_work_unit_writes_no_row_witness :
  let self := Scenario.flaky_batched 0 1 20 2 in
  ∃ e w',
    Batched._run_agent self [Scenario.record 1] 0%nat Scenario.world = (Raise e, w')
    ∧ db w' = [] ∧ identify_calls (calls w') = 0%nat.
Proof.
  intros self.
  destruct (Batched._run_agent self [Scenario.record 1] 0%nat Scenario.world)
    as [[row|e] w'] eqn:Hrun; [by vm_compute in Hrun|].
  exists e, w'. split; [done|].
  destruct (failed_work_unit_writes_no_row self _ _ _ _ _ Hrun) as (Hdb & _).
  split; [by rewrite Hdb|]. vm_compute in Hrun. by simplify_eq.
Defined.

(** Two work units in sequence on the same batch with [ignore_cached] set:
    two rows under the same key, with the primary keys 1 and 2. *)
Lemma ignore_cached_always_analyses_witness :
  let self :=
    Batched.mk "unfiltered:abc123" Scenario.agent Scenario.identify_top_agents
      (λ _, true) true 15 20 10 ∅ in
  let batch := Scenario.record <$> [1; 2] in
  let first_unit := Batched._run_agent self batch 0%nat Scenario.world in
  ∃ row w',
    Batched._run_agent self batch 0%nat first_unit.2 = (Ok row, w')
    ∧ BatchAnalysisRecord.id <$> db w' = [Some 1; Some 2]
    ∧ BatchAnalysisRecord.input_agent_ids <$> db w' = ["1,2"; "1,2"].
Proof.
  intros self batch first_unit.
  destruct (ignore_cached_always_analyses self (Scenario.record 1) [Scenario.record 2]
              0%nat first_unit.2 "analysis" (@mkEnv Scenario.runtime 102 2%nat) [1]
              (@mkEnv Scenario.runtime 102 2%nat) eq_refl eq_refl eq_refl)
    as (row & w' & Hrun & Hdb & _).
  exists row, w'. split; [exact Hrun|].
  rewrite Hdb. vm_compute in Hrun. injection Hrun as <- _. split; reflexivity.
Defined.

(** ** A run over a warm cache *)

Section CacheFacts.
Context `{Runtime}.
Import CookieFunBatchedAnalysisPipeline.

Implicit Types (self : t) (batch : list HistoricAgentRecord.t) (metadata : loc).






End CacheFacts.

Section CacheProperties.
  Context `{Runtime}.
  Import CookieFunBatchedAnalysisPipeline.


End CacheProperties.


(** ** The metadata that a run writes into its rows *)

Section WrittenMetadataFacts.
Context `{Runtime} (P : World → Prop).
Import CookieFunBatchedAnalysisPipeline.

Lemma gather_keeps_any {A} (tasks : list (M A)) :
  Forall (m_keeps P) tasks → m_keeps P (gather tasks).
Proof.
  induction 1 as [|task tasks Htask Htasks IH]; simpl; [apply m_keeps_ret|].
  apply m_keeps_bind; [done|]. intros r.
  apply m_keeps_bind; [done|]. intros rs. apply m_keeps_ret.
Qed.

(** If printing and the work units keep [P], so does [_run_batches]. *)
Lemma run_batches_keeps_any (self : t) batches metadata :
  (∀ line, m_keeps P (print line)) →
  (∀ batch, m_keeps P (_run_agent self batch metadata)) →
  keeps P (_run_batches self batches metadata).
Proof.
  intros Hprint Hagent. unfold _run_batches.
  destruct (concurrency self =? 0); [constructor|].
  destruct (concurrency self <? 0); [constructor|].
  induction (range0 (length batches) (Z.to_nat (concurrency self)))
    as [|index indices IH]; simpl; [constructor|].
  apply keeps_lift.
  - unfold wave. apply m_keeps_bind; [apply Hprint|]. intros _ w Hw.
    unfold task_group.
    assert (P (gather ((λ batch, _run_agent self batch metadata)
                         <$> slice batches index (Z.to_nat (concurrency self))) w).2) as Hg.
    { apply gather_keeps_any; [|done]. apply Forall_fmap, Forall_forall.
      intros batch _. apply Hagent. }
    by destruct (gather _ w) as [[rs|e] w1].
  - intros w tasks w' _ _. by apply keeps_yield_all.
Qed.

End WrittenMetadataFacts.

Section WrittenRows.
Context `{Runtime}.
Import CookieFunBatchedAnalysisPipeline.

(** The rows of the table after a run over a list of records. *)
Lemma run_written_rows
    (self : t) (items : list HistoricAgentRecord.t) (metadata : loc) (w : World)
    (os : list BatchAnalysisRecord.t) (r : option exn) (w' : World) :
  drive (run self (of_list items) metadata) w = (os, r, w') →
  ∀ row, row ∈ db w' →
    row ∈ db w
    ∨ BatchAnalysisRecord.meta row = run_metadata self (default ∅ (heap w !! metadata)).
Proof.
  intros Hrun. set (merged := run_metadata self (default ∅ (heap w !! metadata))).
  rewrite drive_run, prepare_eq in Hrun. cbv zeta in Hrun.
  match type of Hrun with
  | context [form_batches self (of_list items) [] [] ?w0] =>
      destruct (form_batches_of_list self items [] [] w0) as (cur & bs & Hform)
  end.
  rewrite Hform in Hrun. simpl in Hrun.
  set (P := λ w0 : World,
         heap w0 !! length (heap w) = Some merged
         ∧ ∀ row, row ∈ db w0 → row ∈ db w ∨ BatchAnalysisRecord.meta row = merged).
  assert (keeps P (_run_batches self (seal_trailing cur bs) (length (heap w)))) as Hkeeps.
  { apply run_batches_keeps_any.
    - intros line w0 Hw0. exact Hw0.
    - intros batch w0 [Hheap Hrows]. destruct batch as [|first rest]; [by split|].
      unfold _run_agent, bind, db_query, external, get_dict, db_insert. simpl.
      destruct (BatchAnalysisRecord.query _ _ _ _) as [record|], (ignore_cached self);
        try (by split);
        destruct (agent self _ _) as [[text|code] env1]; simpl; try (by split);
        destruct (identify_top_agents self _ _ _) as [[top|code] env2]; simpl;
        try (by split);
        (split; [done|]; intros row [Hrow|Hrow%list_elem_of_singleton]%elem_of_app;
         [by apply Hrows|right; subst row; simpl; by rewrite Hheap]). }
  match type of Hrun with
  | drive _ ?w0 = _ => assert (P w0) as Hstart
  end.
  { split; [|by left]. simpl. by apply list_lookup_middle. }
  pose proof (keeps_drive P _ _ Hkeeps Hstart) as Hend.
  rewrite Hrun in Hend. simpl in Hend. by destruct Hend as [_ Hrows].
Qed.

(** The records that a run yields are rows of the table that it leaves. *)
Lemma run_yields_rows
    (self : t) (input : Gen HistoricAgentRecord.t) (metadata : loc) (w : World)
    (os : list BatchAnalysisRecord.t) (r : option exn) (w' : World) :
  drive (run self input metadata) w = (os, r, w') →
  ∀ row, row ∈ os → row ∈ db w'.
Proof.
  intros Hrun. rewrite drive_run in Hrun.
  destruct (prepare self input metadata w) as [[p|e] w1].
  - apply yielded_rows_in_db in Hrun. by rewrite Forall_forall in Hrun.
  - simplify_eq. by intros row Hrow%elem_of_nil.
Qed.

End WrittenRows.

Section WrittenMetadataProperties.
  Context `{Runtime}.
  Import CookieFunBatchedAnalysisPipeline.

(** Every row that a run of the stage over a list of records writes carries
    the metadata that the run has merged from the caller's dict as it was
    when the run started: the stage defaults, overridden by the extra
    metadata, overridden by the caller's entries.  The rows that the table
    had are the only others, and every record yielded is one of the two. *)
Theorem written_rows_carry_the_merged_metadata
    (self : t) (items : list HistoricAgentRecord.t) (metadata : loc) (w : World)
    (os : list BatchAnalysisRecord.t) (r : option exn) (w' : World) :
  drive (run self (of_list items) metadata) w = (os, r, w') →
  let merged := run_metadata self (default ∅ (heap w !! metadata)) in
  (∀ row, row ∈ db w' → row ∈ db w ∨ BatchAnalysisRecord.meta row = merged)
  ∧ (∀ row, row ∈ os → row ∈ db w ∨ BatchAnalysisRecord.meta row = merged).
Proof.
  intros Hrun merged.
  pose proof (run_written_rows self items metadata w os r w' Hrun) as Hrows.
  split; [exact Hrows|].
  intros row Hrow. apply Hrows.
  by apply (run_yields_rows self (of_list items) metadata w os r w' Hrun).
Qed.

End WrittenMetadataProperties.

(** Three records in batches of two over an empty table: both records
    yielded carry the stage defaults, the extra metadata and the caller's
    entry. *)
Lemma written_rows_carry_the_merged_metadata_witness :
  let self := Scenario.batched 2 20 2 in
  let items := Scenario.record <$> [1; 2; 3] in
  let outcome := drive (Batched.run self (of_list items) 0%nat) Scenario.world in
  length outcome.1.1 = 2%nat
  ∧ ∀ row, row ∈ outcome.1.1 →
      BatchAnalysisRecord.meta row
      = Batched.run_metadata self {[ "source" := PyStr "cli" ]}.
Proof.
  intros self items outcome. split; [reflexivity|].
  destruct outcome as [[os r] w'] eqn:Hrun.
  destruct (written_rows_carry_the_merged_metadata self items 0%nat Scenario.world
              os r w' Hrun) as [_ Hos].
  simpl. intros row Hrow. destruct (Hos row Hrow) as [Hin|Hmeta].
  - simpl in Hin. by apply elem_of_nil in Hin.
  - exact Hmeta.
Defined.

(** ** How a recursion ends *)

Section RecursionOutcomes.
Context `{Runtime} {I O : Type}.
Import RecursionPipeline.

Implicit Types (self : @t _ I O) (input : Gen I) (metadata : loc) (depth : Z).

Lemma drive_of_list {A} (l : list A) w : drive (of_list l) w = (l, None, w).
Proof.
  induction l as [|x l IH]; simpl; [done|]. by rewrite IH.
Qed.

(** With a stop predicate that never holds no level ends normally. *)
Lemma run_fuel_never_stops self fuel input metadata depth w :
  (∀ results, stopper self results = false) →
  (drive (_run_fuel fuel self input metadata depth) w).1.2 ≠ None.
Proof.
  intros Hstopper. revert input metadata depth w.
  induction fuel as [|fuel IH]; intros input metadata depth w; [done|].
  simpl _run_fuel. rewrite drive_run_body.
  destruct (enter self input metadata depth w) as [[p|e] w1]; [|done].
  destruct (drive (Pipeline.run (pipeline self) (of_list p.1) p.2) w1)
    as [[os [e|]] w2]; [done|].
  rewrite Hstopper.
  specialize (IH (of_list (mapper self os)) p.2 (depth + 1) w2).
  by destruct (drive (_run_fuel fuel self (of_list (mapper self os)) p.2 (depth + 1)) w2)
    as [[os' r'] w3].
Qed.

(** With an inner pipeline that never fails on a list, too, every level
    ends in the depth error. *)
Lemma run_fuel_depth_error self fuel items metadata depth w :
  (∀ results, stopper self results = false) →
  (∀ l metadata' w', (drive (Pipeline.run (pipeline self) (of_list l) metadata') w').1.2 = None) →
  (drive (_run_fuel fuel self (of_list items) metadata depth) w).1.2
  = Some (max_depth_error self).
Proof.
  intros Hstopper Hinner. revert items metadata depth w.
  induction fuel as [|fuel IH]; intros items metadata depth w; [done|].
  simpl _run_fuel. rewrite drive_run_body, enter_eq, materialize_of_list. simpl.
  match goal with
  | |- context [drive (Pipeline.run (pipeline self) (of_list items) ?l) ?w1] =>
      pose proof (Hinner items l w1) as Hthis;
      destruct (drive (Pipeline.run (pipeline self) (of_list items) l) w1)
        as [[os r] w2]
  end.
  simpl in Hthis. subst r. rewrite Hstopper.
  match goal with
  | |- context [drive (_run_fuel fuel self ?g ?l ?d) ?w0] =>
      specialize (IH (mapper self os) l d w0);
      destruct (drive (_run_fuel fuel self g l d) w0) as [[os' r'] w3]
  end.
  exact IH.
Qed.

(** A level of [_run] below the maximal depth that fails or stops. *)
Lemma drive_single_level self (items : list I) metadata depth w
    (os : list O) (r : option exn) (w' : World) :
  depth < max_depth self →
  drive (Pipeline.run (pipeline self) (of_list items) (length (heap w)))
    (mkWorld (db w)
       (heap w ++ [<["recursion_depth" := PyInt depth]> (default ∅ (heap w !! metadata))])
       (stdout w ++ ["Running pipeline " +:+ Pipeline.cls_name (pipeline self)
                     +:+ " at depth " +:+ str depth +:+ " on " +:+ str (len items)
                     +:+ " items before filtering"])
       (calls w) (env w))
  = (os, r, w') →
  (r ≠ None ∨ stopper self os = true) →
  drive (_run self (of_list items) metadata depth) w
  = ((λ item, Pair (Plain item) items) <$> os, r, w').
Proof.
  intros Hdepth Hinner Hfinal.
  rewrite _run_unfold by done.
  rewrite drive_run_body, enter_eq, materialize_of_list.
  change ([] ++ items) with items. cbn [fst snd]. rewrite Hinner.
  destruct r as [e|]; [done|].
  destruct Hfinal as [?|Hstop]; [done|]. by rewrite Hstop.
Qed.

End RecursionOutcomes.

Section RecursionOutcomeProperties.
  Context `{Runtime} {I O : Type}.
  Import RecursionPipeline.

(** A run of the recursion stage ends normally only through its stop
    predicate: when the predicate holds for no list of results, every run,
    on every input generator and from every world, ends with an exception;
    and when, besides, the inner pipeline fails on no list of items, a run
    over a list ends with the depth error, whatever [max_depth] is. *)
Theorem recursion_ends_normally_only_by_stopping (self : @t _ I O) :
  (∀ results, stopper self results = false) →
  (∀ input metadata w, ∃ e, (drive (run self input metadata) w).1.2 = Some e)
  ∧ ((∀ l metadata w,
        (drive (Pipeline.run (pipeline self) (of_list l) metadata) w).1.2 = None) →
     ∀ items metadata w,
       (drive (run self (of_list items) metadata) w).1.2 = Some (max_depth_error self)).
Proof.
  intros Hstopper. split.
  - intros input metadata w. unfold run, _run. rewrite async_for_reyield.
    pose proof (run_fuel_never_stops self (Z.to_nat (max_depth self - 0)) input metadata 0 w
                  Hstopper) as Hends.
    destruct (drive _ w) as [[os [e|]] w']; [by exists e|done].
  - intros Hinner items metadata w. unfold run, _run. rewrite async_for_reyield.
    by apply run_fuel_depth_error.
Qed.

(** The first round of a run over a list of items, with [0 < max_depth]:
    the run copies the caller's dict with [recursion_depth] set to 0,
    prints its banner and runs the inner pipeline on the items with the
    copy.  When the inner pipeline fails, or when its results satisfy the
    stop predicate, the run is over: it has yielded each result paired with
    the list of items, in the order of the inner pipeline, it ends as the
    inner pipeline ended and leaves its world; the mapper is not asked. *)
Theorem first_round_is_final_on_failure_or_stop
    (self : @t _ I O) (items : list I) (metadata : loc) (w : World)
    (os : list O) (r : option exn) (w' : World) :
  0 < max_depth self →
  let copy := <["recursion_depth" := PyInt 0]> (default ∅ (heap w !! metadata)) in
  let banner := "Running pipeline " +:+ Pipeline.cls_name (pipeline self)
                +:+ " at depth " +:+ str 0 +:+ " on " +:+ str (len items)
                +:+ " items before filtering" in
  drive (Pipeline.run (pipeline self) (of_list items) (length (heap w)))
    (mkWorld (db w) (heap w ++ [copy]) (stdout w ++ [banner]) (calls w) (env w))
  = (os, r, w') →
  (r ≠ None ∨ stopper self os = true) →
  drive (run self (of_list items) metadata) w
  = ((λ item, Pair (Plain item) items) <$> os, r, w').
Proof.
  intros Hdepth copy banner Hinner Hfinal.
  unfold run. rewrite async_for_reyield.
  by apply drive_single_level.
Qed.

End RecursionOutcomeProperties.

(** The recursion over the stage that yields its input, with a stop
    predicate that never holds and [max_depth = 3]: the run ends in the
    depth error. *)
Lemma recursion_ends_normally_only_by_stopping_witness :
  let self := Scenario.restless 3 in
  (drive (Recursion.run self (of_list [1; 2]) 0%nat) Scenario.world).1.2
  = Some (ValueError "Max depth of 3 reached while recursing Echo").
Proof.
  intros self.
  apply (proj2 (recursion_ends_normally_only_by_stopping self (λ _, eq_refl))).
  intros l metadata w. simpl. by rewrite async_for_reyield, drive_of_list.
Defined.

(** One item, and a stop predicate that holds for one result: the run
    yields that result paired with the list of items, and ends. *)
Lemma first_round_is_final_on_failure_or_stop_witness :
  let self := Scenario.recursion 10 in
  (drive (Recursion.run self (of_list [7]) 0%nat) Scenario.world).1
  = ([Recursion.Pair (Recursion.Plain 7) [7]], None).
Proof.
  intros self.
  refine (f_equal fst
            (first_round_is_final_on_failure_or_stop self [7] 0%nat Scenario.world
               [7] None _ _ _ _)).
  - reflexivity.
  - reflexivity.
  - right. reflexivity.
Defined.

(** ** The recursion over the batching stage *)

Section RecursionOverBatches.
Context `{Runtime}.

Implicit Types (self : @Recursion.t _ HistoricAgentRecord.t BatchAnalysisRecord.t).

(** The rows written by the levels of a recursion whose inner pipeline is
    the batching stage [b], started at [depth] with a metadata dict that
    agrees with [base] up to [recursion_depth]. *)
Lemma run_fuel_rows self (b : Batched.t) (base : dict) (old : list BatchAnalysisRecord.t)
    (fuel : nat) items metadata depth w :
  Recursion.pipeline self = Batched.as_pipeline b →
  0 ≤ depth →
  (fuel ≠ 0%nat → depth + Z.of_nat fuel ≤ Recursion.max_depth self) →
  <["recursion_depth" := PyInt depth]> (default ∅ (heap w !! metadata))
  = <["recursion_depth" := PyInt depth]> base →
  (∀ row, row ∈ db w →
     row ∈ old
     ∨ ∃ level, 0 ≤ level < Recursion.max_depth self
         ∧ BatchAnalysisRecord.meta row
           = Batched.run_metadata b (<["recursion_depth" := PyInt level]> base)) →
  ∀ row, row ∈ db (drive (Recursion._run_fuel fuel self (of_list items) metadata depth) w).2 →
     row ∈ old
     ∨ ∃ level, 0 ≤ level < Recursion.max_depth self
         ∧ BatchAnalysisRecord.meta row
           = Batched.run_metadata b (<["recursion_depth" := PyInt level]> base).
Proof.
  intros Hpipeline. revert items metadata depth w.
  induction fuel as [|fuel IH]; intros items metadata depth w Hdepth Hfuel Hcur Hrows;
    [done|].
  simpl Recursion._run_fuel.
  rewrite drive_run_body, enter_eq, materialize_of_list.
  change ([] ++ items) with items. cbn [fst snd]. rewrite Hpipeline.
  change (Pipeline.run (Batched.as_pipeline b)) with (Batched.run b).
  set (copy := <["recursion_depth" := PyInt depth]> (default ∅ (heap w !! metadata))).
  match goal with
  | |- context [drive (Batched.run b (of_list items) (length (heap w))) ?w1] =>
      set (entered := w1)
  end.
  destruct (drive (Batched.run b (of_list items) (length (heap w))) entered)
    as [[os r] w2] eqn:Hinner.
  assert (heap entered !! length (heap w) = Some copy) as Hcopy.
  { unfold entered. simpl. by apply list_lookup_middle. }
  assert (∀ row, row ∈ db w2 →
            row ∈ old
            ∨ ∃ level, 0 ≤ level < Recursion.max_depth self
                ∧ BatchAnalysisRecord.meta row
                  = Batched.run_metadata b (<["recursion_depth" := PyInt level]> base))
    as Hrows2.
  { intros row Hrow.
    destruct (run_written_rows b items (length (heap w)) entered os r w2 Hinner row Hrow)
      as [Hold|Hmeta]; [by apply Hrows|].
    right. exists depth. split; [lia|].
    rewrite Hmeta, Hcopy. simpl. unfold copy. by rewrite Hcur. }
  destruct r as [e|]; [exact Hrows2|].
  destruct (Recursion.stopper self os); [exact Hrows2|].
  assert (heap w2 !! length (heap w) = Some copy) as Hkept.
  { pose proof (keeps_drive (dict_at (length (heap w)) copy)
                  (Batched.run b (of_list items) (length (heap w))) entered
                  (batched_run_keeps _ _ b _ _ (keeps_of_list _ _))
                  Hcopy) as Hend.
    by rewrite Hinner in Hend. }
  intros row Hrow.
  apply (IH (Recursion.mapper self os) (length (heap w)) (depth + 1) w2);
    [lia|lia| |exact Hrows2|].
  - rewrite Hkept. simpl. unfold copy.
    rewrite insert_insert_eq.
    rewrite <-(insert_insert_eq (default ∅ (heap w !! metadata)) "recursion_depth"
                 (PyInt (depth + 1)) (PyInt depth)).
    rewrite Hcur. by rewrite insert_insert_eq.
  - by destruct (drive (Recursion._run_fuel fuel self (of_list (Recursion.mapper self os))
                          (length (heap w)) (depth + 1)) w2) as [[os' r'] w3].
Qed.

End RecursionOverBatches.

Section RecursionOverBatchesProperties.
  Context `{Runtime}.

(** The pipeline of the command line, a recursion over the batching stage,
    run on a list of records: every row that the run writes, at whatever
    level, carries the merged metadata of the batching stage over the
    caller's dict with [recursion_depth] set to a level [0 <= level <
    max_depth]; the other rows of the table are those that it had. *)
Theorem recursion_rows_carry_their_depth
    (self : @Recursion.t _ HistoricAgentRecord.t BatchAnalysisRecord.t)
    (b : Batched.t) (items : list HistoricAgentRecord.t) (metadata : loc) (w : World) :
  Recursion.pipeline self = Batched.as_pipeline b →
  ∀ row, row ∈ db (drive (Recursion.run self (of_list items) metadata) w).2 →
    row ∈ db w
    ∨ ∃ level, 0 ≤ level < Recursion.max_depth self
        ∧ BatchAnalysisRecord.meta row
          = Batched.run_metadata b
              (<["recursion_depth" := PyInt level]> (default ∅ (heap w !! metadata))).
Proof.
  intros Hpipeline row. unfold Recursion.run, Recursion._run.
  rewrite async_for_reyield.
  apply (run_fuel_rows self b (default ∅ (heap w !! metadata)) (db w)); try done.
  - lia.
  - intros row' Hrow'. by left.
Qed.

End RecursionOverBatchesProperties.

(** The shortlist recursion over five records: three rounds yield six
    records and write five rows (the second round finds the batch of record
    5 in the table), each with the caller's entry, the stage's entries and
    the level of the round that wrote it. *)
Lemma recursion_rows_carry_their_depth_witness :
  let self := Scenario.shortlist_recursion in
  let items := Scenario.record <$> [1; 2; 3; 4; 5] in
  let outcome := drive (Recursion.run self (of_list items) 0%nat) Scenario.world in
  length outcome.1.1 = 6%nat
  ∧ length (db outcome.2) = 5%nat
  ∧ ∀ row, row ∈ db outcome.2 →
      ∃ level, 0 ≤ level < 8
        ∧ BatchAnalysisRecord.meta row
          = Batched.run_metadata (Scenario.batched 2 20 2)
              (<["recursion_depth" := PyInt level]> {[ "source" := PyStr "cli" ]}).
Proof.
  intros self items outcome. split; [reflexivity|]. split; [reflexivity|].
  intros row Hrow.
  destruct (recursion_rows_carry_their_depth self (Scenario.batched 2 20 2) items 0%nat
              Scenario.world eq_refl row Hrow) as [Hold|Hlevel].
  - simpl in Hold. by apply elem_of_nil in Hold.
  - exact Hlevel.
Defined.

(** ** Composition and the source stage *)

Section CompositionProperties.
  Context `{Runtime}.

(** Composition is associative: [(A | B) | C] and [A | (B | C)] run alike
    on every input and metadata reference, namely as the run of [C] on the
    run of [B] on the run of [A]; and both are objects of the class
    [ComposedPipeline]. *)
Theorem composition_is_associative
    {T I J O : Type} (A : Pipeline.t T I) (B : Pipeline.t I J) (C : Pipeline.t J O) :
  Pipeline.__ror__ C (Pipeline.__ror__ B A) = Pipeline.__ror__ (Pipeline.__ror__ C B) A
  ∧ ∀ input metadata,
      Pipeline.run (Pipeline.__ror__ C (Pipeline.__ror__ B A)) input metadata
      = Pipeline.run C (Pipeline.run B (Pipeline.run A input metadata) metadata) metadata.
Proof.
  assert (∀ input metadata,
            Pipeline.run (Pipeline.__ror__ C (Pipeline.__ror__ B A)) input metadata
            = Pipeline.run C (Pipeline.run B (Pipeline.run A input metadata) metadata)
                metadata) as Hleft.
  { intros input metadata. simpl. unfold Pipeline.ComposedPipeline_run. simpl.
    unfold Pipeline.ComposedPipeline_run. by rewrite !async_for_reyield. }
  split; [|exact Hleft].
  unfold Pipeline.__ror__ at 1 3. f_equal.
  apply functional_extensionality. intros input.
  apply functional_extensionality. intros metadata.
  pose proof (Hleft input metadata) as Hleft'. simpl in Hleft'. rewrite Hleft'.
  unfold Pipeline.ComposedPipeline_run. simpl.
  unfold Pipeline.ComposedPipeline_run. by rewrite !async_for_reyield.
Qed.

(** The source stage yields the agents of its ingestion run, in their
    order, and nothing else: it ends normally and leaves the world as it
    was, whatever generator it is given as input (it pulls nothing from it)
    and whatever the metadata reference is.  So a stage composed after it
    runs, on any input, as on the list of the agents. *)
Theorem source_stage_yields_the_agents_of_its_run
    {T O : Type} (self : CookieFunSpecificRunPipeline.t) (input : Gen T) (metadata : loc)
    (B : Pipeline.t HistoricAgentRecord.t O) :
  let agents := IngestionRunRecord.agents (CookieFunSpecificRunPipeline.ingestion_run self) in
  (∀ w, drive (CookieFunSpecificRunPipeline.run self input metadata) w = (agents, None, w))
  ∧ (∀ w, materialize (CookieFunSpecificRunPipeline.run self input metadata) [] w
          = (Ok agents, w))
  ∧ Pipeline.run (Pipeline.__ror__ B (CookieFunSpecificRunPipeline.as_pipeline self))
      input metadata
    = Pipeline.run B (of_list agents) metadata.
Proof.
  intros agents. split; [|split].
  - intros w. apply drive_of_list.
  - intros w. unfold CookieFunSpecificRunPipeline.run. by rewrite materialize_of_list.
  - simpl. unfold Pipeline.ComposedPipeline_run. by rewrite async_for_reyield.
Qed.

End CompositionProperties.

(** ** The loop of the [analyze] command *)

Section CliFacts.
Context `{Runtime}.
Import RecursionPipeline.

Implicit Types (g : Gen (elem HistoricAgentRecord.t BatchAnalysisRecord.t))
  (os : list BatchAnalysisRecord.t) (items : list HistoricAgentRecord.t).

Lemma triple_eta {A B C} (x : A * B * C) : x = (x.1.1, x.1.2, x.2).
Proof.
  by destruct x as [[a b] c].
Qed.

(** The loop over a generator that yields flat pairs only. *)
Lemma analyze_loop_flat g items latest echoed w os r w' :
  drive g w = ((λ o, Pair (Plain o) items) <$> os, r, w') →
  Cli.analyze_loop g latest echoed w
  = match r, (if last os is Some record then Some record else latest) with
    | Some e, _ =>
        (Some (Cli.Uncaught e), echoed ++ ((λ o, Cli.created_line o items) <$> os), w')
    | None, None =>
        (Some (Cli.AttributeError "'NoneType' object has no attribute 'analysis'"),
         echoed ++ ((λ o, Cli.created_line o items) <$> os), w')
    | None, Some record =>
        (None, echoed ++ ((λ o, Cli.created_line o items) <$> os)
               ++ [BatchAnalysisRecord.analysis record], w')
    end.
Proof.
  revert latest echoed w os.
  induction g as [|e|o rest IH|step IH] using Gen_ind; intros latest echoed w os Hdrive.
  - simpl in Hdrive. simplify_eq. destruct os; [|done]. simpl.
    destruct latest; by rewrite ?app_nil_r.
  - simpl in Hdrive. simplify_eq. destruct os; [|done]. simpl. by rewrite app_nil_r.
  - simpl in Hdrive. destruct (drive rest w) as [[os1 r1] w1] eqn:Hrest.
    destruct os as [|o0 os0]; [by simplify_eq/=|].
    rewrite fmap_cons in Hdrive. simplify_eq. cbn [Cli.analyze_loop].
    rewrite (IH (Some o0) _ w os0 Hrest).
    assert ((if last (o0 :: os0) is Some record then Some record else latest)
            = (if last os0 is Some record then Some record else Some o0)) as ->.
    { destruct os0 as [|o1 os1]; [done|]. rewrite last_cons_cons.
      by destruct (last (o1 :: os1)) eqn:Hlast; [|apply last_None in Hlast]. }
    rewrite fmap_cons.
    destruct r; [|destruct (if last os0 is Some record then Some record else Some o0)];
      by rewrite <-?(assoc_L (++)).
  - simpl in Hdrive. simpl. specialize (IH w).
    destruct (step w) as [g' w1]. by apply IH.
Qed.

(** The loop over a generator whose first yield that is no flat pair is a
    tuple that holds a tuple. *)
Lemma analyze_loop_nested g items latest echoed w os x l l' more r w' :
  drive g w = (((λ o, Pair (Plain o) items) <$> os) ++ Pair (Pair x l) l' :: more, r, w') →
  ∃ w'',
    Cli.analyze_loop g latest echoed w
    = (Some (Cli.AttributeError "'tuple' object has no attribute 'id'"),
       echoed ++ ((λ o, Cli.created_line o items) <$> os), w'').
Proof.
  revert latest echoed w os.
  induction g as [|e|o rest IH|step IH] using Gen_ind; intros latest echoed w os Hdrive.
  - simpl in Hdrive. simplify_eq. by destruct os.
  - simpl in Hdrive. simplify_eq. by destruct os.
  - simpl in Hdrive. destruct (drive rest w) as [[os1 r1] w1] eqn:Hrest.
    destruct os as [|o0 os0].
    { simplify_eq/=. exists w. by rewrite app_nil_r. }
    rewrite fmap_cons in Hdrive. simplify_eq/=.
    destruct (IH (Some o0) (echoed ++ [Cli.created_line o0 items]) w os0 Hrest)
      as [w'' Hloop].
    exists w''. rewrite Hloop. by rewrite <-(assoc_L (++)).
  - simpl in Hdrive. simpl. specialize (IH w).
    destruct (step w) as [g' w1]. by apply IH.
Qed.

(** The generator that the command iterates. *)
Lemma cli_pipeline_run {T} ingestion_run (recursion : @t _ _ _) (input : Gen T) metadata :
  Pipeline.run (Cli.pipeline ingestion_run recursion) input metadata
  = run recursion (of_list (IngestionRunRecord.agents ingestion_run)) metadata.
Proof.
  simpl. unfold Pipeline.ComposedPipeline_run. by rewrite async_for_reyield.
Qed.

End CliFacts.

Section CliProperties.
  Context `{Runtime}.
  Import RecursionPipeline.

(** The [analyze] command when the first round of the recursion is the
    only one, because the inner pipeline fails or because the stop
    predicate holds for its results ([0 < max_depth]).  The command echoes
    one line for each result, with the id of the record and the number of
    agents of the ingestion run.  If the inner pipeline failed, its
    exception ends the command.  If it yielded nothing, the command fails
    on [latest_analysis_record.analysis], the variable being [None].
    Otherwise it echoes the analysis of the last result and ends
    normally. *)
Theorem analyze_reports_a_single_round
    (ingestion_run : IngestionRunRecord.t)
    (recursion : @t _ HistoricAgentRecord.t BatchAnalysisRecord.t) (metadata : loc)
    (w : World) (os : list BatchAnalysisRecord.t) (r : option exn) (w' : World) :
  0 < max_depth recursion →
  let items := IngestionRunRecord.agents ingestion_run in
  let copy := <["recursion_depth" := PyInt 0]> (default ∅ (heap w !! metadata)) in
  let banner := "Running pipeline " +:+ Pipeline.cls_name (pipeline recursion)
                +:+ " at depth " +:+ str 0 +:+ " on " +:+ str (len items)
                +:+ " items before filtering" in
  let lines := (λ o, Cli.created_line o items) <$> os in
  drive (Pipeline.run (pipeline recursion) (of_list items) (length (heap w)))
    (mkWorld (db w) (heap w ++ [copy]) (stdout w ++ [banner]) (calls w) (env w))
  = (os, r, w') →
  (r ≠ None ∨ stopper recursion os = true) →
  Cli.analyze ingestion_run recursion metadata w
  = match r, last os with
    | Some e, _ => (Some (Cli.Uncaught e), lines, w')
    | None, None =>
        (Some (Cli.AttributeError "'NoneType' object has no attribute 'analysis'"), [], w')
    | None, Some record => (None, lines ++ [BatchAnalysisRecord.analysis record], w')
    end.
Proof.
  intros Hdepth items copy banner lines Hinner Hfinal.
  unfold Cli.analyze. rewrite cli_pipeline_run. fold items.
  rewrite (analyze_loop_flat _ items None [] w os r w').
  - destruct r as [e|]; [done|]. destruct (last os) as [record|] eqn:Hlast; [done|].
    apply last_None in Hlast. by subst os.
  - unfold run. rewrite async_for_reyield. by apply drive_single_level.
Qed.

(** The [analyze] command when the recursion goes on after its first
    round and the invocation at depth 1 yields anything: having echoed one
    line for each result of the first round, the command fails on
    [analysis_record.id], the first component of the item being a tuple; so
    it never echoes an analysis. *)
Theorem analyze_fails_on_deeper_results
    (ingestion_run : IngestionRunRecord.t)
    (recursion : @t _ HistoricAgentRecord.t BatchAnalysisRecord.t) (metadata : loc)
    (w : World) (os : list BatchAnalysisRecord.t) (w' : World) :
  0 < max_depth recursion →
  let items := IngestionRunRecord.agents ingestion_run in
  let copy := <["recursion_depth" := PyInt 0]> (default ∅ (heap w !! metadata)) in
  let banner := "Running pipeline " +:+ Pipeline.cls_name (pipeline recursion)
                +:+ " at depth " +:+ str 0 +:+ " on " +:+ str (len items)
                +:+ " items before filtering" in
  drive (Pipeline.run (pipeline recursion) (of_list items) (length (heap w)))
    (mkWorld (db w) (heap w ++ [copy]) (stdout w ++ [banner]) (calls w) (env w))
  = (os, None, w') →
  stopper recursion os = false →
  (drive (_run recursion (of_list (mapper recursion os)) (length (heap w)) 1) w').1.1 ≠ [] →
  ∃ w'',
    Cli.analyze ingestion_run recursion metadata w
    = (Some (Cli.AttributeError "'tuple' object has no attribute 'id'"),
       (λ o, Cli.created_line o items) <$> os, w'').
Proof.
  intros Hdepth items copy banner Hinner Hstop Hdeeper.
  unfold Cli.analyze. rewrite cli_pipeline_run. fold items.
  pose proof (run_fuel_yields_tuples recursion (Z.to_nat (max_depth recursion - 1))
                (of_list (mapper recursion os)) (length (heap w)) 1 w') as Htuples.
  fold (_run recursion (of_list (mapper recursion os)) (length (heap w)) 1) in Htuples.
  destruct (drive (_run recursion (of_list (mapper recursion os)) (length (heap w)) 1) w')
    as [[os' r'] w3] eqn:Hsub.
  simpl in Hdeeper, Htuples.
  destruct os' as [|y ys]; [done|].
  apply Forall_cons in Htuples as [(x & l & ->) _].
  apply (analyze_loop_nested _ items None [] w os x l (mapper recursion os)
           ((λ item, Pair item (mapper recursion os)) <$> ys) r' w3).
  unfold run. rewrite async_for_reyield, _run_unfold by done.
  rewrite drive_run_body, enter_eq, materialize_of_list.
  change ([] ++ items) with items. cbn [fst snd].
  fold copy. fold banner. rewrite Hinner, Hstop.
  change (0 + 1) with 1. by rewrite Hsub.
Qed.

End CliProperties.

(** An ingestion run of two agents: the one batch gives one result, for
    which the stop predicate holds; the command echoes the line of the
    result and its analysis. *)
Lemma analyze_reports_a_single_round_witness :
  let ingestion_run :=
    IngestionRunRecord.mk 7 0 "_3Days" (Scenario.record <$> [1; 2]) in
  (Cli.analyze ingestion_run Scenario.shortlist_recursion 0%nat Scenario.world).1
  = (None, ["Created analysis record 1 for 2 agents"; "analysis"]).
Proof.
  intros ingestion_run.
  pose proof (analyze_reports_a_single_round ingestion_run Scenario.shortlist_recursion
                0%nat Scenario.world) as Hround.
  cbv zeta in Hround.
  pose proof (Hround _ _ _ eq_refl (triple_eta _)) as Hresult.
  rewrite Hresult; [|right; vm_compute; reflexivity].
  vm_compute. reflexivity.
Defined.

(** An ingestion run of five agents: the first round gives three results,
    the recursion goes on, and the command fails on the first result of the
    second round, after the three lines of the first. *)
Lemma analyze_fails_on_deeper_results_witness :
  let ingestion_run :=
    IngestionRunRecord.mk 7 0 "_3Days" (Scenario.record <$> [1; 2; 3; 4; 5]) in
  ∃ w'',
    Cli.analyze ingestion_run Scenario.shortlist_recursion 0%nat Scenario.world
    = (Some (Cli.AttributeError "'tuple' object has no attribute 'id'"),
       ["Created analysis record 1 for 5 agents";
        "Created analysis record 2 for 5 agents";
        "Created analysis record 3 for 5 agents"], w'').
Proof.
  intros ingestion_run.
  pose proof (analyze_fails_on_deeper_results ingestion_run Scenario.shortlist_recursion
                0%nat Scenario.world) as Hdeeper.
  cbv zeta in Hdeeper.
  destruct (Hdeeper _ _ eq_refl (triple_eta _)) as [w'' Hfails].
  - vm_compute. reflexivity.
  - vm_compute. discriminate.
  - exists w''. rewrite Hfails. vm_compute. reflexivity.
Defined.

(** ** Loading a prompt file *)

Section StringFacts.
Import CookieFunAnalysis.

Lemma app_cons c (a b : string) : String c a +:+ b = String c (a +:+ b).
Proof.
  done.
Qed.

Lemma startswith_app s sub : startswith s sub = true ↔ ∃ rest, s = sub +:+ rest.
Proof.
  revert s. induction sub as [|c sub IH]; intros s; simpl.
  - split; [intros _; by exists s|done].
  - destruct s as [|d s]; simpl.
    + split; [done|]. by intros [rest ?].
    + rewrite andb_true_iff, bool_decide_eq_true, IH. split.
      * intros [-> [rest ->]]. by exists rest.
      * intros [rest Heq]. rewrite app_cons in Heq. injection Heq as -> ->.
        split; [done|by exists rest].
Qed.

Lemma str_drop_app pre s : str_drop (String.length pre) (pre +:+ s) = s.
Proof.
  induction pre as [|c pre IH]; [by destruct s|]. by rewrite app_cons.
Qed.

Lemma str_drop_add n k s : str_drop (n + k) s = str_drop k (str_drop n s).
Proof.
  revert s. induction n as [|n IH]; intros s; simpl; [done|].
  destruct s as [|c s]; simpl; [by destruct k|apply IH].
Qed.

Lemma find_unfold s sub :
  find s sub
  = if startswith s sub then Some 0%nat
    else match s with
         | EmptyString => None
         | String _ s' => S <$> find s' sub
         end.
Proof.
  by destruct s.
Qed.

(** What [find] answers is the first occurrence. *)
Lemma find_Some s sub i :
  find s sub = Some i →
  ∃ rest, s = str_take i s +:+ sub +:+ rest
          ∧ String.length (str_take i s) = i
          ∧ ∀ j, (j < i)%nat → startswith (str_drop j s) sub = false.
Proof.
  revert i. induction s as [|c s IH]; intros i; simpl.
  - destruct (startswith "" sub) eqn:Hstart; [|done].
    intros [= <-]. apply startswith_app in Hstart as [rest Hrest].
    exists rest. simpl. split; [done|]. split; [done|]. lia.
  - destruct (startswith (String c s) sub) eqn:Hstart.
    + intros [= <-]. apply startswith_app in Hstart as [rest Hrest].
      exists rest. simpl. split; [done|]. split; [done|]. lia.
    + destruct (find s sub) as [i'|] eqn:Hfind; [|done]. simpl. intros [= <-].
      destruct (IH i' eq_refl) as (rest & Heq & Hlen & Hfirst).
      exists rest. simpl. rewrite app_cons. split; [by rewrite <-Heq|].
      split; [by rewrite Hlen|].
      intros [|j] Hj; simpl; [done|]. apply Hfirst. lia.
Qed.

(** The first occurrence is what [find] answers. *)
Lemma find_first pre sub rest :
  (∀ j, (j < String.length pre)%nat →
        startswith (str_drop j (pre +:+ sub +:+ rest)) sub = false) →
  find (pre +:+ sub +:+ rest) sub = Some (String.length pre).
Proof.
  induction pre as [|c pre IH]; intros Hfirst; rewrite find_unfold.
  - assert (startswith ("" +:+ sub +:+ rest) sub = true) as ->; [|done].
    apply startswith_app. by exists rest.
  - assert (startswith (String c pre +:+ sub +:+ rest) sub = false) as ->
      by (apply (Hfirst 0%nat); simpl; lia).
    rewrite app_cons. rewrite IH; [done|]. intros j Hj.
    specialize (Hfirst (S j)). rewrite app_cons in Hfirst. apply Hfirst. simpl. lia.
Qed.

(** Without an answer of [find] there is no occurrence. *)
Lemma find_None s sub :
  find s sub = None → ∀ pre rest, s ≠ pre +:+ sub +:+ rest.
Proof.
  induction s as [|c s IH]; simpl.
  - destruct (startswith "" sub) eqn:Hstart; [done|]. intros _ pre rest Heq.
    destruct pre as [|d pre]; [|done].
    assert (startswith "" sub = true) as Hyes by (apply startswith_app; by exists rest).
    congruence.
  - destruct (startswith (String c s) sub) eqn:Hstart; [done|].
    destruct (find s sub) as [i'|] eqn:Hfind; [done|]. intros _ pre rest Heq.
    destruct pre as [|d pre].
    + assert (startswith (String c s) sub = true) as Hyes
        by (apply startswith_app; by exists rest).
      congruence.
    + rewrite app_cons in Heq. injection Heq as -> Heq. by eapply IH.
Qed.

End StringFacts.

Section LoadPromptFacts.
Context `{Runtime}.
Import CookieFunAnalysis.

Context (safe_load : string → yaml_document) (sha256_hexdigest : string → string)
  (analyze_agents :
     string → option string → IngestionRunRecord.t → list dict → Env → Outcome string * Env)
  (identify_top_agents : list HistoricAgentRecord.t → string → Env → Outcome (list Z) * Env)
  (small_caps_filter large_caps_filter resilience_filter : HistoricAgentRecord.t → bool).

(** The split at the first separator line: the prompt keeps the newline
    that ends the line. *)
Lemma split_prompt_file_Some content front prompt :
  split_prompt_file content = (Some front, prompt) ↔
  ∃ rest,
    newline +:+ content = front +:+ separator +:+ rest
    ∧ prompt = newline +:+ rest
    ∧ ∀ j, (j < String.length front)%nat →
        startswith (str_drop j (newline +:+ content)) separator = false.
Proof.
  unfold split_prompt_file. split.
  - destruct (find (newline +:+ content) separator) as [i|] eqn:Hfind; [|done].
    intros [= <- <-].
    apply find_Some in Hfind as (rest & Heq & Hlen & Hfirst).
    exists rest. split; [done|]. split; [|by rewrite Hlen].
    rewrite Heq at 1. rewrite <-Hlen at 1.
    by rewrite str_drop_add, str_drop_app.
  - intros (rest & Heq & -> & Hfirst). rewrite Heq in Hfirst |- *.
    rewrite (find_first front separator rest Hfirst).
    f_equal.
    + f_equal. clear. induction front as [|c front IH]; [done|].
      rewrite app_cons. simpl. by f_equal.
    + by rewrite str_drop_add, str_drop_app.
Qed.

Lemma split_prompt_file_None content prompt :
  split_prompt_file content = (None, prompt) ↔
  prompt = newline +:+ content
  ∧ ∀ pre post, newline +:+ content ≠ pre +:+ separator +:+ post.
Proof.
  unfold split_prompt_file. split.
  - destruct (find (newline +:+ content) separator) as [i|] eqn:Hfind; [done|].
    intros [= <-]. split; [done|]. by apply find_None.
  - intros [-> Hnone].
    destruct (find (newline +:+ content) separator) as [i|] eqn:Hfind; [|done].
    apply find_Some in Hfind as (rest & Heq & _). by apply Hnone in Heq.
Qed.

(** The settings of the stage that [load_prompt] returns. *)
Lemma load_prompt_settings content ingestion_run context ignore_cached p :
  load_prompt safe_load sha256_hexdigest analyze_agents identify_top_agents
    small_caps_filter large_caps_filter resilience_filter
    content ingestion_run context ignore_cached = inr p →
  Batched.batch_size p = 15 ∧ Batched.max_batches p = 20 ∧ Batched.concurrency p = 10
  ∧ Batched.ignore_cached p = ignore_cached
  ∧ Batched.extra_metadata p = {[ "model" := PyStr "o3-mini" ]}.
Proof.
  unfold load_prompt. destruct (split_prompt_file content) as [[front|] prompt]; [|done].
  destruct (safe_load front) as [|[[name|shown|type_name]|]|type_name]; try done; simpl.
  - destruct (filters _ _ _ _) as [filter|]; [|done]. by intros [= <-].
  - by intros [= <-].
Qed.

(** The batches hold at most [batch_size] records each. *)
Lemma concat_batches_bound (batches : list (list HistoricAgentRecord.t)) (size : Z) :
  0 ≤ size →
  Forall (λ batch, len batch ≤ size) batches →
  len (concat batches) ≤ size * len batches.
Proof.
  intros Hsize. unfold len. induction 1 as [|batch batches Hbatch _ IH]; simpl; [lia|].
  rewrite length_app. unfold len in Hbatch. lia.
Qed.

End LoadPromptFacts.

Section LoadPromptProperties.
  Context `{Runtime}.
  Import CookieFunAnalysis.

  Context (safe_load : string → yaml_document) (sha256_hexdigest : string → string)
    (analyze_agents :
       string → option string → IngestionRunRecord.t → list dict → Env → Outcome string * Env)
    (identify_top_agents : list HistoricAgentRecord.t → string → Env → Outcome (list Z) * Env)
    (small_caps_filter large_caps_filter resilience_filter : HistoricAgentRecord.t → bool).

(** [load_prompt] returns a stage exactly when the content of the file,
    with a newline put before it, has a line that is [---]; the text before
    the first such line is loaded as a YAML mapping; and the value of its
    key [filter], or [unfiltered] when the key is missing, is a string that
    names one of the four filters.  The prompt is then the text behind that
    line, with the newline that ends the line at its head; the stage
    records its results under the analysis type [<filter>:<the first six
    digits of the hash of the prompt>], uses that filter, batches of 15,
    at most 20 batches and waves of 10, and notes the model [o3-mini]. *)
Theorem load_prompt_returns_a_stage_iff
    (content : string) (ingestion_run : IngestionRunRecord.t) (context : option string)
    (ignore_cached : bool) (p : Batched.t) :
  load_prompt safe_load sha256_hexdigest analyze_agents identify_top_agents
    small_caps_filter large_caps_filter resilience_filter
    content ingestion_run context ignore_cached = inr p
  ↔ ∃ front rest filter_name filter,
      newline +:+ content = front +:+ newline +:+ "---" +:+ newline +:+ rest
      ∧ (∀ j, (j < String.length front)%nat →
           startswith (str_drop j (newline +:+ content)) separator = false)
      ∧ (safe_load front = YamlMapping (Some (YamlStr filter_name))
         ∨ (safe_load front = YamlMapping None ∧ filter_name = "unfiltered"))
      ∧ filters small_caps_filter large_caps_filter resilience_filter filter_name
        = Some filter
      ∧ p = Batched.mk
              (filter_name +:+ ":" +:+ str_take 6 (sha256_hexdigest (newline +:+ rest)))
              (analyze_agents (newline +:+ rest) context ingestion_run)
              identify_top_agents filter ignore_cached 15 20 10
              {[ "model" := PyStr "o3-mini" ]}.
Proof.
  unfold load_prompt. split.
  - destruct (split_prompt_file content) as [[front|] prompt] eqn:Hsplit; [|done].
    apply split_prompt_file_Some in Hsplit as (rest & Heq & -> & Hfirst).
    destruct (safe_load front) as [|[[name|shown|type_name]|]|type_name] eqn:Hload;
      try done; simpl.
    + destruct (filters _ _ _ _) as [filter|] eqn:Hfilter; [|done]. intros [= <-].
      exists front, rest, name, filter. repeat split; try done. by left.
    + intros [= <-].
      exists front, rest, "unfiltered", (λ _, true). repeat split; try done. by right.
  - intros (front & rest & filter_name & filter & Heq & Hfirst & Hload & Hfilter & ->).
    assert (split_prompt_file content = (Some front, newline +:+ rest)) as ->.
    { apply split_prompt_file_Some. by exists rest. }
    destruct Hload as [->|[-> ->]].
    + simpl. by rewrite Hfilter.
    + simpl in Hfilter |- *. by injection Hfilter as <-.
Qed.

(** A prompt file in which no line is [---] cannot be loaded: whatever the
    YAML loader and the other collaborators do, [load_prompt] fails on
    [config.get], the configuration being [None]. *)
Theorem load_prompt_needs_a_separator_line
    (content : string) (ingestion_run : IngestionRunRecord.t) (context : option string)
    (ignore_cached : bool) :
  (∀ pre post, newline +:+ content ≠ pre +:+ newline +:+ "---" +:+ newline +:+ post) →
  load_prompt safe_load sha256_hexdigest analyze_agents identify_top_agents
    small_caps_filter large_caps_filter resilience_filter
    content ingestion_run context ignore_cached
  = inl (AttributeError "'NoneType' object has no attribute 'get'").
Proof.
  intros Hnone. unfold load_prompt.
  assert (split_prompt_file content = (None, newline +:+ content)) as ->; [|done].
  apply split_prompt_file_None. split; [done|]. exact Hnone.
Qed.

(** A stage that [load_prompt] has returned forms, from any input, at most
    20 batches of between 1 and 15 records, which hold at most 300 records
    together: a run analyses at most 300 records. *)
Theorem loaded_stage_analyses_at_most_300_records
    (content : string) (ingestion_run : IngestionRunRecord.t) (context : option string)
    (ignore_cached : bool) (p : Batched.t)
    (input : Gen HistoricAgentRecord.t) (metadata : loc) (w : World)
    (q : loc * list (list HistoricAgentRecord.t)) (w' : World) :
  load_prompt safe_load sha256_hexdigest analyze_agents identify_top_agents
    small_caps_filter large_caps_filter resilience_filter
    content ingestion_run context ignore_cached = inr p →
  Batched.prepare p input metadata w = (Ok q, w') →
  len q.2 ≤ 20
  ∧ Forall (λ batch, 1 ≤ len batch ≤ 15) q.2
  ∧ len (concat q.2) ≤ 300.
Proof.
  intros Hload Hrun.
  apply load_prompt_settings in Hload as (Hsize & Hcap & _).
  rewrite prepare_eq in Hrun. simpl in Hrun.
  destruct (Batched.form_batches _ _ _ _ _) as [[[cur bs]|e] w1] eqn:Hform; simplify_eq.
  simpl.
  apply form_batches_cap in Hform as Hend; [|rewrite Hcap; unfold len; simpl; lia].
  apply form_batches_sizes in Hform as [Hcur Hbs];
    [|rewrite Hsize; lia|rewrite Hsize; unfold len; simpl; lia|done].
  rewrite Hsize in Hcur, Hbs. rewrite Hcap in Hend.
  assert (len (Batched.seal_trailing cur bs) ≤ 20) as Hcount.
  { destruct Hend as [Hlt|[-> Heq]]; simpl; [|lia].
    destruct cur; simpl; [lia|]. rewrite len_snoc. lia. }
  assert (Forall (λ batch, 1 ≤ len batch ≤ 15) (Batched.seal_trailing cur bs)) as Hsizes.
  { assert (Forall (λ batch, 1 ≤ len batch ≤ 15) bs) as Hfull.
    { eapply Forall_impl; [exact Hbs|]. intros batch Hbatch. simpl in Hbatch. lia. }
    destruct cur as [|record cur]; simpl; [done|].
    apply Forall_app. split; [done|]. constructor; [|done].
    unfold len in *. simpl in *. lia. }
  split; [done|]. split; [done|].
  assert (len (concat (Batched.seal_trailing cur bs))
          ≤ 15 * len (Batched.seal_trailing cur bs)) as Hsum.
  { apply concat_batches_bound; [lia|].
    eapply Forall_impl; [exact Hsizes|]. intros batch Hbatch. simpl in Hbatch. lia. }
  lia.
Qed.

End LoadPromptProperties.

(** A prompt file of one line: there is no separator line, and loading it
    fails. *)
Lemma load_prompt_needs_a_separator_line_witness :
  let ingestion_run := IngestionRunRecord.mk 7 0 "_3Days" [] in
  CookieFunAnalysis.load_prompt (H := Scenario.runtime)
    (λ _, CookieFunAnalysis.YamlMapping None) (λ _, "0f3a9c21e7")
    (λ _ _ _, Scenario.agent) Scenario.identify_top_agents
    (λ _, true) (λ _, true) (λ _, true)
    "Rank the agents." ingestion_run None false
  = inl (CookieFunAnalysis.AttributeError "'NoneType' object has no attribute 'get'").
Proof.
  intros ingestion_run.
  apply load_prompt_needs_a_separator_line.
  apply (find_None _ CookieFunAnalysis.separator). vm_compute. reflexivity.
Defined.

(** A prompt file with the front matter [filter: small_caps]: the stage
    that is loaded forms, of forty records, three batches of 15, 15 and 10
    records. *)
Lemma loaded_stage_analyses_at_most_300_records_witness :
  let ingestion_run := IngestionRunRecord.mk 7 0 "_3Days" [] in
  let content :=
    "filter: small_caps" +:+ CookieFunAnalysis.separator +:+ "Rank the agents." in
  let loaded :=
    CookieFunAnalysis.load_prompt (H := Scenario.runtime)
      (λ front,
         if bool_decide (front = CookieFunAnalysis.newline +:+ "filter: small_caps")
         then CookieFunAnalysis.YamlMapping (Some (CookieFunAnalysis.YamlStr "small_caps"))
         else CookieFunAnalysis.YamlMapping None)
      (λ _, "0f3a9c21e7")
      (λ _ _ _, Scenario.agent) Scenario.identify_top_agents
      (λ _, true) (λ _, true) (λ _, true)
      content ingestion_run None false in
  let items := Scenario.record <$> seqZ 1 40 in
  ∃ p,
    loaded = inr p
    ∧ Batched.analysis_type p = "small_caps:0f3a9c"
    ∧ match (Batched.prepare p (of_list items) 0%nat Scenario.world).1 with
      | Ok q =>
          length <$> q.2 = [15; 15; 10]%nat
          ∧ len q.2 ≤ 20
          ∧ Forall (λ batch, 1 ≤ len batch ≤ 15) q.2
          ∧ len (concat q.2) ≤ 300
      | Raise _ => False
      end.
Proof.
  intros ingestion_run content loaded items.
  eexists. split; [reflexivity|]. split; [reflexivity|].
  match goal with
  | |- match (Batched.prepare ?p _ _ _).1 with _ => _ end =>
      destruct (Batched.prepare p (of_list items) 0%nat Scenario.world)
        as [[q|e] w'] eqn:Hrun
  end.
  - split; [vm_compute in Hrun; by simplify_eq|].
    eapply (loaded_stage_analyses_at_most_300_records _ _ _ _ _ _ _
              content ingestion_run None false).
    2: exact Hrun.
    exact (eq_refl : loaded = inr _).
  - vm_compute in Hrun. simplify_eq.
Defined.

(** ** The order of the records that a run yields *)

Section WaveOrderFacts.
Context `{Runtime}.
Import CookieFunBatchedAnalysisPipeline.

Implicit Types (self : t) (batches : list (list HistoricAgentRecord.t)) (metadata : loc).




End WaveOrderFacts.

Section WaveOrderProperties.
  Context `{Runtime}.
  Import CookieFunBatchedAnalysisPipeline.


End WaveOrderProperties.

